(** * Spin population models of gwpopulation: densities and their normalisation

    A shallow embedding of [gwpopulation/models/spin.py].

    Numbers.  The Python code computes with binary64 floats through the array
    module [xp].  Here a scalar is an exact rational ([Qc]); every finite float
    is one, and the arithmetic of the embedding is the exact arithmetic the
    floating-point operations approximate.  Rounding and overflow are outside
    the model, and a division by zero yields 0 as in [Qc]; the division by
    the normalising constant of the correlated models, the one whose divisor
    can be zero, is embedded a second time in [Nonfinite] with the [inf] and
    [nan] that numpy yields for a zero constant.  The functions of [utils]
    are taken as total: the exceptions they raise for parameters out of
    their domain are outside the model.

    Arrays.  A dataset maps a parameter name to a one-dimensional array
    ([list Qc]).  Binary operations on arrays follow numpy's broadcasting rule
    for one-dimensional operands, and raise [ValueError] on incompatible
    shapes; a missing dataset key raises [KeyError]. *)

From Stdlib Require Import QArith Qcanon.
From stdpp Require Import base option list list_monad numbers strings gmap.

Local Open Scope Qc_scope.

(** ** Exceptions and results *)

Inductive exn : Type :=
| KeyError (key : string)
| ValueError.

Inductive result (A : Type) : Type :=
| Ok (a : A)
| Raise (e : exn).
Arguments Ok {A} a.
Arguments Raise {A} e.

#[global] Instance result_ret : MRet result := λ A a, Ok a.
#[global] Instance result_bind : MBind result := λ A B f r,
  match r with
  | Ok a => f a
  | Raise e => Raise e
  end.

(** ** Scalars *)

Definition qc (n : Z) (d : positive) : Qc := Q2Qc (n # d).

Definition Qc_of_nat (n : nat) : Qc := Q2Qc (inject_Z (Z.of_nat n)).

(** [xp.abs] on a scalar. *)
Definition Qcabs (x : Qc) : Qc := if decide (0 ≤ x) then x else - x.

(** A boolean used in arithmetic counts as 1 or 0. *)
Definition bool_to_Qc (b : bool) : Qc := if b then 1 else 0.

(** ** Arrays *)

Abbreviation array := (list Qc).

Definition sum (a : array) : Qc := foldr Qcplus 0 a.

(** [a op b] for two one-dimensional arrays: equal shapes combine pointwise,
    a one-element operand is stretched, anything else is a shape error. *)
Definition broadcast {A B C : Type} (f : A → B → C)
    (a : list A) (b : list B) : result (list C) :=
  if decide (length a = length b) then Ok (zip_with f a b)
  else match a, b with
       | [x], _ => Ok (f x <$> b)
       | _, [y] => Ok ((λ x, f x y) <$> a)
       | _, _ => Raise ValueError
       end.

(** [prob op= other]: the result is stored in [prob], so [other] may be
    stretched to the shape of [prob] but [prob] cannot grow. *)
Definition inplace {A B : Type} (f : A → B → A)
    (prob : list A) (other : list B) : result (list A) :=
  if decide (length prob = length other) then Ok (zip_with f prob other)
  else match other with
       | [y] => Ok ((λ x, f x y) <$> prob)
       | _ => Raise ValueError
       end.

(** [dataset[key]] *)
Definition getitem (dataset : gmap string array) (key : string) : result array :=
  match dataset !! key with
  | Some a => Ok a
  | None => Raise (KeyError key)
  end.

(** ** The array module: [linspace], [meshgrid], [trapz] *)

(** [xp.linspace(start, stop, num)], endpoint included. *)
Definition linspace (start stop : Qc) (num : nat) : array :=
  let step := (stop - start) / Qc_of_nat (num - 1) in
  (λ i, Qc_of_nat i * step + start) <$> seq 0 num.

(** [xp.meshgrid(x, y)] with the default Cartesian indexing: both grids have
    one row per entry of [y] and one column per entry of [x]. *)
Definition meshgrid (x y : array) : list array * list array :=
  ((λ _, x) <$> y, (λ yj, (λ _, yj) <$> x) <$> y).

(** [xp.diff(x)] is [x[1:] - x[:-1]]. *)
Definition diff (x : array) : array := zip_with Qcminus (tail x) (removelast x).

(** [xp.trapz(y, x)] on one row:
    [(d * (y[1:] + y[:-1]) / 2.0).sum()] with [d = diff(x)]. *)
Definition trapz (y x : array) : result Qc :=
  let d := diff x in
  t ← broadcast Qcmult d (zip_with Qcplus (tail y) (removelast y));
  Ok (sum ((λ v, v / qc 2 1) <$> t)).

(** [xp.trapz(y, axis=-1, x)] on a two-dimensional [y]: one integral per row. *)
Definition trapz_rows (y : list array) (x : array) : result array :=
  mapM (λ row, trapz row x) y.

(** ** The models *)

Section Models.

(** *** Densities of [gwpopulation.utils]

    The module [..utils] is not among the sources.  Its densities are taken
    pointwise, as functions of one sample and the shape parameters, in the
    argument order of their Python signatures. *)

(** [beta_dist(xx, alpha, beta, scale)] at one sample. *)
Variable beta_pdf : Qc → Qc → Qc → Qc → Qc.

(** The renormalised normal density [(x, mu, sigma, high, low)] and
    skew-normal density [(x, mu, sigma, alpha, high, low)] at a sample inside
    the interval [[low, high]]. *)
Variable normal_pdf : Qc → Qc → Qc → Qc → Qc → Qc.
Variable skew_normal_pdf : Qc → Qc → Qc → Qc → Qc → Qc → Qc.

(** [unnormalized_2d_gaussian(x, y, mu_x, mu_y, sigma_x, sigma_y, rho)] and
    [unnormalized_2d_skew_gaussian(x, y, mu_x, mu_y, sigma_x, sigma_y,
    skew_x, skew_y, rho)] at one pair of samples. *)
Variable kernel_2d : Qc → Qc → Qc → Qc → Qc → Qc → Qc → Qc.
Variable skew_kernel_2d : Qc → Qc → Qc → Qc → Qc → Qc → Qc → Qc → Qc → Qc.

Definition beta_dist (xx : array) (alpha beta scale : Qc) : array :=
  (λ x, beta_pdf x alpha beta scale) <$> xx.

(** Modelled from the spec: [utils.truncnorm] is missing.  The glossary
    describes a normal density restricted to a finite interval and
    renormalised there: the density is [normal_pdf] on [[low, high]] and
    vanishes outside. *)
Definition truncnorm_at (x mu sigma high low : Qc) : Qc :=
  if decide (low ≤ x ∧ x ≤ high) then normal_pdf x mu sigma high low else 0.

Definition truncnorm (xx : array) (mu sigma high low : Qc) : array :=
  (λ x, truncnorm_at x mu sigma high low) <$> xx.

(** Modelled from the spec: [utils.truncskewnorm] is missing.  The glossary
    describes a skew-normal density restricted to a finite interval and
    renormalised there. *)
Definition truncskewnorm_at (x mu sigma alpha high low : Qc) : Qc :=
  if decide (low ≤ x ∧ x ≤ high)
  then skew_normal_pdf x mu sigma alpha high low else 0.

Definition truncskewnorm (xx : array) (mu sigma alpha high low : Qc) : array :=
  (λ x, truncskewnorm_at x mu sigma alpha high low) <$> xx.

(** The kernels are called on two sample arrays, which broadcast, and on
    the two grids of a mesh. *)
Definition unnormalized_2d_gaussian (x y : array)
    (mu_x mu_y sigma_x sigma_y rho : Qc) : result array :=
  broadcast (λ a b, kernel_2d a b mu_x mu_y sigma_x sigma_y rho) x y.

Definition unnormalized_2d_gaussian_grid (x y : list array)
    (mu_x mu_y sigma_x sigma_y rho : Qc) : list array :=
  zip_with (zip_with (λ a b, kernel_2d a b mu_x mu_y sigma_x sigma_y rho)) x y.

Definition unnormalized_2d_skew_gaussian (x y : array)
    (mu_x mu_y sigma_x sigma_y skew_x skew_y rho : Qc) : result array :=
  broadcast
    (λ a b, skew_kernel_2d a b mu_x mu_y sigma_x sigma_y skew_x skew_y rho) x y.

Definition unnormalized_2d_skew_gaussian_grid (x y : list array)
    (mu_x mu_y sigma_x sigma_y skew_x skew_y rho : Qc) : list array :=
  zip_with (zip_with
    (λ a b, skew_kernel_2d a b mu_x mu_y sigma_x sigma_y skew_x skew_y rho)) x y.

(** *** Spin magnitudes *)

Definition independent_spin_magnitude_beta (dataset : gmap string array)
    (alpha_chi_1 alpha_chi_2 beta_chi_1 beta_chi_2 amax_1 amax_2 : Qc)
    : result array :=
  a_1 ← getitem dataset "a_1";
  let p1 := beta_dist a_1 alpha_chi_1 beta_chi_1 amax_1 in
  a_2 ← getitem dataset "a_2";
  let p2 := beta_dist a_2 alpha_chi_2 beta_chi_2 amax_2 in
  broadcast Qcmult p1 p2.

Definition iid_spin_magnitude_beta (dataset : gmap string array)
    (amax alpha_chi beta_chi : Qc) : result array :=
  independent_spin_magnitude_beta
    dataset alpha_chi alpha_chi beta_chi beta_chi amax amax.

(** *** Spin orientations *)

Definition independent_spin_orientation_gaussian_isotropic
    (dataset : gmap string array) (xi_spin sigma_1 sigma_2 : Qc)
    : result array :=
  let iso := (1 - xi_spin) / qc 4 1 in
  cos_tilt_1 ← getitem dataset "cos_tilt_1";
  let t1 := Qcmult xi_spin <$> truncnorm cos_tilt_1 1 sigma_1 1 (-1) in
  cos_tilt_2 ← getitem dataset "cos_tilt_2";
  t ← broadcast Qcmult t1 (truncnorm cos_tilt_2 1 sigma_2 1 (-1));
  Ok (Qcplus iso <$> (t : array)).

Definition iid_spin_orientation_gaussian_isotropic
    (dataset : gmap string array) (xi_spin sigma_spin : Qc) : result array :=
  independent_spin_orientation_gaussian_isotropic
    dataset xi_spin sigma_spin sigma_spin.

Definition iid_spin (dataset : gmap string array)
    (xi_spin sigma_spin amax alpha_chi beta_chi : Qc) : result array :=
  orientation ← iid_spin_orientation_gaussian_isotropic
                  dataset xi_spin sigma_spin;
  magnitude ← iid_spin_magnitude_beta dataset amax alpha_chi beta_chi;
  broadcast Qcmult orientation magnitude.

(** *** Effective spins: the marginals *)

Definition gaussian_chi_eff (dataset : gmap string array)
    (mu_chi_eff sigma_chi_eff : Qc) : result array :=
  chi_eff ← getitem dataset "chi_eff";
  Ok (truncnorm chi_eff mu_chi_eff sigma_chi_eff 1 (-1)).

Definition gaussian_chi_p (dataset : gmap string array)
    (mu_chi_p sigma_chi_p : Qc) : result array :=
  chi_p ← getitem dataset "chi_p";
  Ok (truncnorm chi_p mu_chi_p sigma_chi_p 1 0).

Definition skew_gaussian_chi_eff (dataset : gmap string array)
    (mu_chi_eff sigma_chi_eff skew_chi_eff : Qc) : result array :=
  chi_eff ← getitem dataset "chi_eff";
  Ok (truncskewnorm chi_eff mu_chi_eff sigma_chi_eff skew_chi_eff 1 (-1)).

Definition skew_gaussian_chi_p (dataset : gmap string array)
    (mu_chi_p sigma_chi_p skew_chi_p : Qc) : result array :=
  chi_p ← getitem dataset "chi_p";
  Ok (truncskewnorm chi_p mu_chi_p sigma_chi_p skew_chi_p 1 0).

(** *** Effective spins: the correlated pair *)

(** [prob *= mask] for a boolean mask. *)
Definition imul_mask (prob : array) (mask : list bool) : result array :=
  inplace (λ p b, p * bool_to_Qc b) prob mask.

(** [xp.abs(chi_eff) <= 1] and [(chi_p <= 1) * (chi_p >= 0)]. *)
Definition chi_eff_mask (chi_eff : array) : list bool :=
  (λ x, bool_decide (Qcabs x ≤ 1)) <$> chi_eff.

Definition chi_p_mask (chi_p1 chi_p2 : array) : result (list bool) :=
  broadcast andb ((λ x, bool_decide (x ≤ 1)) <$> chi_p1)
                 ((λ x, bool_decide (0 ≤ x)) <$> chi_p2).

(** The closure [_normalization] of [gaussian_chi_p_chi_eff]. *)
Definition _normalization
    (mu_chi_eff sigma_chi_eff mu_chi_p sigma_chi_p rho : Qc) : result Qc :=
  let chi_eff_linspace := linspace (-1) 1 500 in
  let chi_p_linspace := linspace 0 1 250 in
  let '(chi_eff_grid, chi_p_grid) := meshgrid chi_eff_linspace chi_p_linspace in
  let prob_grid :=
    unnormalized_2d_gaussian_grid chi_eff_grid chi_p_grid
      mu_chi_eff mu_chi_p sigma_chi_eff sigma_chi_p rho in
  inner ← trapz_rows prob_grid chi_eff_linspace;
  trapz inner chi_p_linspace.

Definition gaussian_chi_p_chi_eff (dataset : gmap string array)
    (mu_chi_eff sigma_chi_eff mu_chi_p sigma_chi_p rho : Qc) : result array :=
  if decide (rho = 0) then
    prob ← gaussian_chi_eff dataset mu_chi_eff sigma_chi_eff;
    other ← gaussian_chi_p dataset mu_chi_p sigma_chi_p;
    inplace Qcmult prob other
  else
    chi_eff ← getitem dataset "chi_eff";
    chi_p ← getitem dataset "chi_p";
    prob ← unnormalized_2d_gaussian chi_eff chi_p
              mu_chi_eff mu_chi_p sigma_chi_eff sigma_chi_p rho;
    normalization ← _normalization
                      mu_chi_eff sigma_chi_eff mu_chi_p sigma_chi_p rho;
    let prob := (λ p, p / normalization) <$> (prob : array) in
    chi_eff ← getitem dataset "chi_eff";
    prob ← imul_mask prob (chi_eff_mask chi_eff);
    chi_p1 ← getitem dataset "chi_p";
    chi_p2 ← getitem dataset "chi_p";
    mask ← chi_p_mask chi_p1 chi_p2;
    imul_mask prob mask.

(** The closure [_normalization] of [gaussian_chi_p_chi_eff_skew]. *)
Definition _normalization_skew
    (mu_chi_eff sigma_chi_eff mu_chi_p sigma_chi_p skew_chi_eff skew_chi_p
     rho : Qc) : result Qc :=
  let chi_eff_linspace := linspace (-1) 1 500 in
  let chi_p_linspace := linspace 0 1 250 in
  let '(chi_eff_grid, chi_p_grid) := meshgrid chi_eff_linspace chi_p_linspace in
  let prob_grid :=
    unnormalized_2d_skew_gaussian_grid chi_eff_grid chi_p_grid
      mu_chi_eff mu_chi_p sigma_chi_eff sigma_chi_p
      skew_chi_eff skew_chi_p rho in
  inner ← trapz_rows prob_grid chi_eff_linspace;
  trapz inner chi_p_linspace.

Definition gaussian_chi_p_chi_eff_skew (dataset : gmap string array)
    (mu_chi_eff sigma_chi_eff mu_chi_p sigma_chi_p skew_chi_eff skew_chi_p
     rho : Qc) : result array :=
  if decide (rho = 0) then
    prob ← skew_gaussian_chi_eff dataset mu_chi_eff sigma_chi_eff skew_chi_eff;
    other ← skew_gaussian_chi_p dataset mu_chi_p sigma_chi_p skew_chi_p;
    inplace Qcmult prob other
  else
    chi_eff ← getitem dataset "chi_eff";
    chi_p ← getitem dataset "chi_p";
    prob ← unnormalized_2d_skew_gaussian chi_eff chi_p
              mu_chi_eff mu_chi_p sigma_chi_eff sigma_chi_p
              skew_chi_eff skew_chi_p rho;
    normalization ← _normalization_skew
                      mu_chi_eff sigma_chi_eff mu_chi_p sigma_chi_p
                      skew_chi_eff skew_chi_p rho;
    let prob := (λ p, p / normalization) <$> (prob : array) in
    chi_eff ← getitem dataset "chi_eff";
    prob ← imul_mask prob (chi_eff_mask chi_eff);
    chi_p1 ← getitem dataset "chi_p";
    chi_p2 ← getitem dataset "chi_p";
    mask ← chi_p_mask chi_p1 chi_p2;
    imul_mask prob mask.

End Models.


(** * The models on a store of arrays

    The Python functions receive references: a dataset is a dictionary whose
    values point to arrays that the caller owns, and [prob *= ...] and
    [prob /= ...] overwrite the array [prob] points to.  This second
    embedding keeps the arrays in a heap and lets a model update any location
    it holds a reference to.  Calls of the densities of [utils] and arithmetic
    between arrays build a new array; boolean masks are temporaries that
    nothing refers to, so they stay values. *)

Module Store.

Abbreviation loc := positive.

Abbreviation heap := (gmap positive (list Qc)).

(** A computation reads and writes the heap and returns or raises. *)
Definition M (A : Type) : Type := heap → result A * heap.

#[global] Instance M_ret : MRet M := λ A a h, (Ok a, h).

#[global] Instance M_bind : MBind M := λ A B k c h,
  match c h with
  | (Ok a, h') => k a h'
  | (Raise e, h') => (Raise e, h')
  end.

Definition lift {A} (r : result A) : M A := λ h, (r, h).

(** Reading through a reference, building a new array, overwriting one. *)
Definition load (l : loc) : M array := λ h, (Ok (h !!! l), h).

Definition alloc (a : array) : M loc :=
  λ h, let l := fresh (dom h) in (Ok l, <[l := a]> h).

Definition store (l : loc) (a : array) : M unit :=
  λ h, (Ok tt, <[l := a]> h).

(** [dataset[key]] yields the reference held under [key]. *)
Definition getitem (dataset : gmap string loc) (key : string) : M loc :=
  match dataset !! key with
  | Some l => mret l
  | None => lift (Raise (KeyError key))
  end.

(** A function of one array, or of two, whose result is a new array. *)
Definition call1 (f : array → array) (l : loc) : M loc :=
  a ← load l; alloc (f a).

Definition call2 (f : array → array → result array) (l1 l2 : loc) : M loc :=
  a ← load l1;
  b ← load l2;
  c ← lift (f a b);
  alloc c.

(** An augmented assignment: the array at [l] is replaced by [f] of it. *)
Definition update (f : array → result array) (l : loc) : M unit :=
  a ← load l;
  c ← lift (f a);
  store l c.

Section Models.

Variable beta_pdf : Qc → Qc → Qc → Qc → Qc.
Variable normal_pdf : Qc → Qc → Qc → Qc → Qc → Qc.
Variable skew_normal_pdf : Qc → Qc → Qc → Qc → Qc → Qc → Qc.
Variable kernel_2d : Qc → Qc → Qc → Qc → Qc → Qc → Qc → Qc.
Variable skew_kernel_2d : Qc → Qc → Qc → Qc → Qc → Qc → Qc → Qc → Qc → Qc.

Definition independent_spin_magnitude_beta (dataset : gmap string loc)
    (alpha_chi_1 alpha_chi_2 beta_chi_1 beta_chi_2 amax_1 amax_2 : Qc)
    : M loc :=
  a_1 ← getitem dataset "a_1";
  p1 ← call1 (λ xx, beta_dist beta_pdf xx alpha_chi_1 beta_chi_1 amax_1) a_1;
  a_2 ← getitem dataset "a_2";
  p2 ← call1 (λ xx, beta_dist beta_pdf xx alpha_chi_2 beta_chi_2 amax_2) a_2;
  call2 (broadcast Qcmult) p1 p2.

Definition iid_spin_magnitude_beta (dataset : gmap string loc)
    (amax alpha_chi beta_chi : Qc) : M loc :=
  independent_spin_magnitude_beta
    dataset alpha_chi alpha_chi beta_chi beta_chi amax amax.

Definition independent_spin_orientation_gaussian_isotropic
    (dataset : gmap string loc) (xi_spin sigma_1 sigma_2 : Qc) : M loc :=
  let iso := (1 - xi_spin) / qc 4 1 in
  cos_tilt_1 ← getitem dataset "cos_tilt_1";
  n1 ← call1 (λ xx, truncnorm normal_pdf xx 1 sigma_1 1 (-1)) cos_tilt_1;
  t1 ← call1 (fmap (Qcmult xi_spin)) n1;
  cos_tilt_2 ← getitem dataset "cos_tilt_2";
  n2 ← call1 (λ xx, truncnorm normal_pdf xx 1 sigma_2 1 (-1)) cos_tilt_2;
  t ← call2 (broadcast Qcmult) t1 n2;
  call1 (fmap (Qcplus iso)) t.

Definition iid_spin_orientation_gaussian_isotropic
    (dataset : gmap string loc) (xi_spin sigma_spin : Qc) : M loc :=
  independent_spin_orientation_gaussian_isotropic
    dataset xi_spin sigma_spin sigma_spin.

Definition iid_spin (dataset : gmap string loc)
    (xi_spin sigma_spin amax alpha_chi beta_chi : Qc) : M loc :=
  orientation ← iid_spin_orientation_gaussian_isotropic
                      dataset xi_spin sigma_spin;
  magnitude ← iid_spin_magnitude_beta dataset amax alpha_chi beta_chi;
  call2 (broadcast Qcmult) orientation magnitude.

Definition gaussian_chi_eff (dataset : gmap string loc)
    (mu_chi_eff sigma_chi_eff : Qc) : M loc :=
  chi_eff ← getitem dataset "chi_eff";
  call1 (λ xx, truncnorm normal_pdf xx mu_chi_eff sigma_chi_eff 1 (-1)) chi_eff.

Definition gaussian_chi_p (dataset : gmap string loc)
    (mu_chi_p sigma_chi_p : Qc) : M loc :=
  chi_p ← getitem dataset "chi_p";
  call1 (λ xx, truncnorm normal_pdf xx mu_chi_p sigma_chi_p 1 0) chi_p.

Definition skew_gaussian_chi_eff (dataset : gmap string loc)
    (mu_chi_eff sigma_chi_eff skew_chi_eff : Qc) : M loc :=
  chi_eff ← getitem dataset "chi_eff";
  call1 (λ xx, truncskewnorm skew_normal_pdf xx
                 mu_chi_eff sigma_chi_eff skew_chi_eff 1 (-1)) chi_eff.

Definition skew_gaussian_chi_p (dataset : gmap string loc)
    (mu_chi_p sigma_chi_p skew_chi_p : Qc) : M loc :=
  chi_p ← getitem dataset "chi_p";
  call1 (λ xx, truncskewnorm skew_normal_pdf xx
                 mu_chi_p sigma_chi_p skew_chi_p 1 0) chi_p.

(** The lines shared by the two branches for [rho ≠ 0]: [prob] is divided
    by the normalising constant and multiplied by the masks, in place. *)
Definition normalise_and_mask (dataset : gmap string loc)
    (prob : loc) (normalization : Qc) : M loc :=
  update (λ p, Ok ((λ v, v / normalization) <$> p)) prob;;
  chi_eff ← getitem dataset "chi_eff";
  x ← load chi_eff;
  update (λ p, imul_mask p (chi_eff_mask x)) prob;;
  chi_p1 ← getitem dataset "chi_p";
  y1 ← load chi_p1;
  chi_p2 ← getitem dataset "chi_p";
  y2 ← load chi_p2;
  mask ← lift (chi_p_mask y1 y2);
  update (λ p, imul_mask p mask) prob;;
  mret prob.

Definition gaussian_chi_p_chi_eff (dataset : gmap string loc)
    (mu_chi_eff sigma_chi_eff mu_chi_p sigma_chi_p rho : Qc) : M loc :=
  if decide (rho = 0) then
    prob ← gaussian_chi_eff dataset mu_chi_eff sigma_chi_eff;
    other ← gaussian_chi_p dataset mu_chi_p sigma_chi_p;
    b ← load other;
    update (λ p, inplace Qcmult p b) prob;;
    mret prob
  else
    chi_eff ← getitem dataset "chi_eff";
    chi_p ← getitem dataset "chi_p";
    prob ← call2 (λ x y, unnormalized_2d_gaussian kernel_2d x y
                       mu_chi_eff mu_chi_p sigma_chi_eff sigma_chi_p rho)
                 chi_eff chi_p;
    normalization ← lift (_normalization kernel_2d
                          mu_chi_eff sigma_chi_eff mu_chi_p sigma_chi_p rho);
    normalise_and_mask dataset prob normalization.

Definition gaussian_chi_p_chi_eff_skew (dataset : gmap string loc)
    (mu_chi_eff sigma_chi_eff mu_chi_p sigma_chi_p skew_chi_eff skew_chi_p
     rho : Qc) : M loc :=
  if decide (rho = 0) then
    prob ← skew_gaussian_chi_eff dataset
                 mu_chi_eff sigma_chi_eff skew_chi_eff;
    other ← skew_gaussian_chi_p dataset mu_chi_p sigma_chi_p skew_chi_p;
    b ← load other;
    update (λ p, inplace Qcmult p b) prob;;
    mret prob
  else
    chi_eff ← getitem dataset "chi_eff";
    chi_p ← getitem dataset "chi_p";
    prob ← call2 (λ x y, unnormalized_2d_skew_gaussian skew_kernel_2d x y
                       mu_chi_eff mu_chi_p sigma_chi_eff sigma_chi_p
                       skew_chi_eff skew_chi_p rho)
                 chi_eff chi_p;
    normalization ← lift (_normalization_skew skew_kernel_2d
                          mu_chi_eff sigma_chi_eff mu_chi_p sigma_chi_p
                          skew_chi_eff skew_chi_p rho);
    normalise_and_mask dataset prob normalization.

End Models.

End Store.

(** * The correlated models with the non-finite outcomes of the division

    [prob /= normalization] divides floats: numpy yields [inf] for a non-zero
    entry over a zero constant and [nan] for zero over zero, and the masks
    that follow multiply by [True] or [False], where [inf * False] and
    [nan * False] are [nan].  This embedding of the two correlated models
    keeps those outcomes; the look-ups, the kernel, the quadrature and the
    shapes are the ones of the first embedding. *)

Module Nonfinite.

(** A float: a rational, an infinity with its sign, or not a number. *)
Inductive num : Type :=
| Finite (q : Qc)
| Infinite (negative : bool)
| NaN.

(** [p / n] for two finite floats. *)
Definition divide (p n : Qc) : num :=
  if decide (n = 0) then
    if decide (p = 0) then NaN else Infinite (bool_decide (p < 0))
  else Finite (p / n).

(** [v * b] for a boolean [b]. *)
Definition times_mask (v : num) (b : bool) : num :=
  match v with
  | Finite q => Finite (q * bool_to_Qc b)
  | Infinite negative => if b then Infinite negative else NaN
  | NaN => NaN
  end.

(** [prob *= mask] for a boolean mask. *)
Definition imul_mask (prob : list num) (mask : list bool) : result (list num) :=
  inplace times_mask prob mask.

Section Models.

Variable normal_pdf : Qc → Qc → Qc → Qc → Qc → Qc.
Variable skew_normal_pdf : Qc → Qc → Qc → Qc → Qc → Qc → Qc.
Variable kernel_2d : Qc → Qc → Qc → Qc → Qc → Qc → Qc → Qc.
Variable skew_kernel_2d : Qc → Qc → Qc → Qc → Qc → Qc → Qc → Qc → Qc → Qc.

Definition gaussian_chi_p_chi_eff (dataset : gmap string array)
    (mu_chi_eff sigma_chi_eff mu_chi_p sigma_chi_p rho : Qc)
    : result (list num) :=
  if decide (rho = 0) then
    prob ← gaussian_chi_eff normal_pdf dataset mu_chi_eff sigma_chi_eff;
    other ← gaussian_chi_p normal_pdf dataset mu_chi_p sigma_chi_p;
    prob ← inplace Qcmult prob other;
    Ok (Finite <$> (prob : array))
  else
    chi_eff ← getitem dataset "chi_eff";
    chi_p ← getitem dataset "chi_p";
    prob ← unnormalized_2d_gaussian kernel_2d chi_eff chi_p
              mu_chi_eff mu_chi_p sigma_chi_eff sigma_chi_p rho;
    normalization ← _normalization kernel_2d
                      mu_chi_eff sigma_chi_eff mu_chi_p sigma_chi_p rho;
    let prob := (λ p, divide p normalization) <$> (prob : array) in
    chi_eff ← getitem dataset "chi_eff";
    prob ← imul_mask prob (chi_eff_mask chi_eff);
    chi_p1 ← getitem dataset "chi_p";
    chi_p2 ← getitem dataset "chi_p";
    mask ← chi_p_mask chi_p1 chi_p2;
    imul_mask prob mask.

Definition gaussian_chi_p_chi_eff_skew (dataset : gmap string array)
    (mu_chi_eff sigma_chi_eff mu_chi_p sigma_chi_p skew_chi_eff skew_chi_p
     rho : Qc) : result (list num) :=
  if decide (rho = 0) then
    prob ← skew_gaussian_chi_eff skew_normal_pdf dataset
             mu_chi_eff sigma_chi_eff skew_chi_eff;
    other ← skew_gaussian_chi_p skew_normal_pdf dataset
              mu_chi_p sigma_chi_p skew_chi_p;
    prob ← inplace Qcmult prob other;
    Ok (Finite <$> (prob : array))
  else
    chi_eff ← getitem dataset "chi_eff";
    chi_p ← getitem dataset "chi_p";
    prob ← unnormalized_2d_skew_gaussian skew_kernel_2d chi_eff chi_p
              mu_chi_eff mu_chi_p sigma_chi_eff sigma_chi_p
              skew_chi_eff skew_chi_p rho;
    normalization ← _normalization_skew skew_kernel_2d
                      mu_chi_eff sigma_chi_eff mu_chi_p sigma_chi_p
                      skew_chi_eff skew_chi_p rho;
    let prob := (λ p, divide p normalization) <$> (prob : array) in
    chi_eff ← getitem dataset "chi_eff";
    prob ← imul_mask prob (chi_eff_mask chi_eff);
    chi_p1 ← getitem dataset "chi_p";
    chi_p2 ← getitem dataset "chi_p";
    mask ← chi_p_mask chi_p1 chi_p2;
    imul_mask prob mask.

End Models.

End Nonfinite.
(** * Inputs used in the examples *)

(** The scenario of two perfectly aligned spins. *)
Definition aligned_dataset : gmap string array :=
  {[ "cos_tilt_1" := [1]; "cos_tilt_2" := [1] ]}.

(** Two magnitudes, two tilts and a pair of effective spins for two samples:
    the first inside the support of the effective spins, the second outside. *)
Definition two_samples : gmap string array :=
  {[ "a_1" := [qc 1 2; qc 1 4];
     "a_2" := [qc 3 10; qc 1 5];
     "cos_tilt_1" := [1; qc (-1) 2];
     "cos_tilt_2" := [qc 1 2; 0];
     "chi_eff" := [-1; qc 3 2];
     "chi_p" := [1; qc 1 2] ]}.

(** Stand-ins for the densities of [gwpopulation.utils] in the examples. *)
Definition flat_beta (x alpha beta scale : Qc) : Qc := 1 / scale.
Definition flat_normal (x mu sigma high low : Qc) : Qc := 1 / (high - low).
Definition flat_skew_normal (x mu sigma alpha high low : Qc) : Qc :=
  1 / (high - low).
Definition bump_kernel (x y mu_x mu_y sigma_x sigma_y rho : Qc) : Qc :=
  1 + (x - mu_x) * (x - mu_x) + rho * rho * (y - mu_y) * (y - mu_y).
Definition bump_skew_kernel
    (x y mu_x mu_y sigma_x sigma_y skew_x skew_y rho : Qc) : Qc :=
  1 + (x - mu_x) * (x - mu_x) + rho * rho * (y - mu_y) * (y - mu_y).

(** A heap holding the effective spins of [two_samples] and a dataset that
    refers to them. *)
Definition example_heap : Store.heap :=
  {[ 1%positive := [-1; qc 3 2]; 2%positive := [1; qc 1 2] ]}.

Definition example_dataset : gmap string Store.loc :=
  {[ "chi_eff" := 1%positive; "chi_p" := 2%positive ]}.



(** * Pointwise values and the documented formulas *)

(** The value [independent_spin_orientation_gaussian_isotropic] computes for
    one pair of cosine tilts. *)
Definition tilt_mixture (normal_pdf : Qc → Qc → Qc → Qc → Qc → Qc)
    (xi_spin sigma_1 sigma_2 z1 z2 : Qc) : Qc :=
  (1 - xi_spin) / qc 4 1
  + xi_spin * truncnorm_at normal_pdf z1 1 sigma_1 1 (-1)
            * truncnorm_at normal_pdf z2 1 sigma_2 1 (-1).

(** The density as the docstrings of the two orientation models and the
    specification write it: the isotropic term carries [(1 - xi)^2 / 4]. *)
Definition documented_tilt_mixture (normal_pdf : Qc → Qc → Qc → Qc → Qc → Qc)
    (xi_spin sigma_1 sigma_2 z1 z2 : Qc) : Qc :=
  (1 - xi_spin) * (1 - xi_spin) / qc 4 1
  + xi_spin * (truncnorm_at normal_pdf z1 1 sigma_1 1 (-1)
               * truncnorm_at normal_pdf z2 1 sigma_2 1 (-1)).

(** The trapezoidal rule for [f] on the points [grid], in the words of the
    specification: over each pair of neighbouring points, the width of the
    interval times the mean of the two values. *)
Fixpoint trapezoid_rule (f : Qc → Qc) (grid : array) : Qc :=
  match grid with
  | a :: (b :: _) as rest =>
      (b - a) * (f b + f a) / qc 2 1 + trapezoid_rule f rest
  | _ => 0
  end.

(** The 500 equally spaced points of [[-1, 1]] and the 250 of [[0, 1]]. *)
Definition chi_eff_points : array :=
  (λ i, -1 + Qc_of_nat i * qc 2 499) <$> seq 0 500.

Definition chi_p_points : array :=
  (λ i, Qc_of_nat i * qc 1 249) <$> seq 0 250.

(** Nested quadrature of a kernel on the mesh of the two grids: over
    [chi_eff] first, then over [chi_p]. *)
Definition grid_quadrature (kernel : Qc → Qc → Qc) : Qc :=
  trapezoid_rule
    (λ chi_p, trapezoid_rule (λ chi_eff, kernel chi_eff chi_p) chi_eff_points)
    chi_p_points.

(** The value the general path computes for one sample: the kernel over the
    normalising constant, times the two masks. *)
Definition masked_density (kernel : Qc → Qc → Qc)
    (normalization x y : Qc) : Qc :=
  kernel x y / normalization
  * bool_to_Qc (bool_decide (Qcabs x ≤ 1))
  * bool_to_Qc (bool_decide (y ≤ 1) && bool_decide (0 ≤ y)).

(** The value the general path computes for one sample when the division
    keeps its non-finite outcomes. *)
Definition masked_quotient (kernel : Qc → Qc → Qc)
    (normalization x y : Qc) : Nonfinite.num :=
  Nonfinite.times_mask
    (Nonfinite.times_mask
       (Nonfinite.divide (kernel x y) normalization)
       (bool_decide (Qcabs x ≤ 1)))
    (bool_decide (y ≤ 1) && bool_decide (0 ≤ y)).

(** * Calls of the exposed density functions *)

(** A density function together with the hyperparameters of one call. *)
Inductive model : Type :=
| Iid_spin (xi_spin sigma_spin amax alpha_chi beta_chi : Qc)
| Iid_spin_magnitude_beta (amax alpha_chi beta_chi : Qc)
| Independent_spin_magnitude_beta
    (alpha_chi_1 alpha_chi_2 beta_chi_1 beta_chi_2 amax_1 amax_2 : Qc)
| Iid_spin_orientation_gaussian_isotropic (xi_spin sigma_spin : Qc)
| Independent_spin_orientation_gaussian_isotropic (xi_spin sigma_1 sigma_2 : Qc)
| Gaussian_chi_eff (mu_chi_eff sigma_chi_eff : Qc)
| Gaussian_chi_p (mu_chi_p sigma_chi_p : Qc)
| Gaussian_chi_p_chi_eff
    (mu_chi_eff sigma_chi_eff mu_chi_p sigma_chi_p rho : Qc)
| Skew_gaussian_chi_eff (mu_chi_eff sigma_chi_eff skew_chi_eff : Qc)
| Skew_gaussian_chi_p (mu_chi_p sigma_chi_p skew_chi_p : Qc)
| Gaussian_chi_p_chi_eff_skew
    (mu_chi_eff sigma_chi_eff mu_chi_p sigma_chi_p skew_chi_eff skew_chi_p
     rho : Qc).

Section Calls.

Variable beta_pdf : Qc → Qc → Qc → Qc → Qc.
Variable normal_pdf : Qc → Qc → Qc → Qc → Qc → Qc.
Variable skew_normal_pdf : Qc → Qc → Qc → Qc → Qc → Qc → Qc.
Variable kernel_2d : Qc → Qc → Qc → Qc → Qc → Qc → Qc → Qc.
Variable skew_kernel_2d : Qc → Qc → Qc → Qc → Qc → Qc → Qc → Qc → Qc → Qc.

(** The call as a function of the values of the dataset. *)
Definition eval (m : model) (dataset : gmap string array) : result array :=
  match m with
  | Iid_spin xi_spin sigma_spin amax alpha_chi beta_chi =>
      iid_spin beta_pdf normal_pdf dataset
        xi_spin sigma_spin amax alpha_chi beta_chi
  | Iid_spin_magnitude_beta amax alpha_chi beta_chi =>
      iid_spin_magnitude_beta beta_pdf dataset amax alpha_chi beta_chi
  | Independent_spin_magnitude_beta a1 a2 b1 b2 m1 m2 =>
      independent_spin_magnitude_beta beta_pdf dataset a1 a2 b1 b2 m1 m2
  | Iid_spin_orientation_gaussian_isotropic xi_spin sigma_spin =>
      iid_spin_orientation_gaussian_isotropic normal_pdf dataset
        xi_spin sigma_spin
  | Independent_spin_orientation_gaussian_isotropic xi_spin sigma_1 sigma_2 =>
      independent_spin_orientation_gaussian_isotropic normal_pdf dataset
        xi_spin sigma_1 sigma_2
  | Gaussian_chi_eff mu sigma => gaussian_chi_eff normal_pdf dataset mu sigma
  | Gaussian_chi_p mu sigma => gaussian_chi_p normal_pdf dataset mu sigma
  | Gaussian_chi_p_chi_eff mu_e sigma_e mu_p sigma_p rho =>
      gaussian_chi_p_chi_eff normal_pdf kernel_2d dataset
        mu_e sigma_e mu_p sigma_p rho
  | Skew_gaussian_chi_eff mu sigma skew =>
      skew_gaussian_chi_eff skew_normal_pdf dataset mu sigma skew
  | Skew_gaussian_chi_p mu sigma skew =>
      skew_gaussian_chi_p skew_normal_pdf dataset mu sigma skew
  | Gaussian_chi_p_chi_eff_skew mu_e sigma_e mu_p sigma_p skew_e skew_p rho =>
      gaussian_chi_p_chi_eff_skew skew_normal_pdf skew_kernel_2d dataset
        mu_e sigma_e mu_p sigma_p skew_e skew_p rho
  end.

(** The call on the store, through the references of the dataset. *)
Definition call (m : model) (dataset : gmap string Store.loc)
    : Store.M Store.loc :=
  match m with
  | Iid_spin xi_spin sigma_spin amax alpha_chi beta_chi =>
      Store.iid_spin beta_pdf normal_pdf dataset
        xi_spin sigma_spin amax alpha_chi beta_chi
  | Iid_spin_magnitude_beta amax alpha_chi beta_chi =>
      Store.iid_spin_magnitude_beta beta_pdf dataset amax alpha_chi beta_chi
  | Independent_spin_magnitude_beta a1 a2 b1 b2 m1 m2 =>
      Store.independent_spin_magnitude_beta beta_pdf dataset a1 a2 b1 b2 m1 m2
  | Iid_spin_orientation_gaussian_isotropic xi_spin sigma_spin =>
      Store.iid_spin_orientation_gaussian_isotropic normal_pdf dataset
        xi_spin sigma_spin
  | Independent_spin_orientation_gaussian_isotropic xi_spin sigma_1 sigma_2 =>
      Store.independent_spin_orientation_gaussian_isotropic normal_pdf dataset
        xi_spin sigma_1 sigma_2
  | Gaussian_chi_eff mu sigma =>
      Store.gaussian_chi_eff normal_pdf dataset mu sigma
  | Gaussian_chi_p mu sigma =>
      Store.gaussian_chi_p normal_pdf dataset mu sigma
  | Gaussian_chi_p_chi_eff mu_e sigma_e mu_p sigma_p rho =>
      Store.gaussian_chi_p_chi_eff normal_pdf kernel_2d dataset
        mu_e sigma_e mu_p sigma_p rho
  | Skew_gaussian_chi_eff mu sigma skew =>
      Store.skew_gaussian_chi_eff skew_normal_pdf dataset mu sigma skew
  | Skew_gaussian_chi_p mu sigma skew =>
      Store.skew_gaussian_chi_p skew_normal_pdf dataset mu sigma skew
  | Gaussian_chi_p_chi_eff_skew mu_e sigma_e mu_p sigma_p skew_e skew_p rho =>
      Store.gaussian_chi_p_chi_eff_skew skew_normal_pdf skew_kernel_2d dataset
        mu_e sigma_e mu_p sigma_p skew_e skew_p rho
  end.

End Calls.

(** The arrays a dataset of references points to in a heap. *)
Definition dataset_values (h : Store.heap) (dataset : gmap string Store.loc)
    : gmap string array :=
  (λ l, h !!! l) <$> dataset.

(** Every reference of the dataset points to an array of the heap. *)
Definition allocated (h : Store.heap) (dataset : gmap string Store.loc) : Prop :=
  map_Forall (λ _ l, is_Some (h !! l)) dataset.

(** What the caller gets: the array behind the returned reference, or the
    exception. *)
Definition outcome (rh : result Store.loc * Store.heap) : result array :=
  match rh.1 with
  | Ok l => Ok (rh.2 !!! l)
  | Raise e => Raise e
  end.

(** The post-condition of a call made in the heap [h] that is to return the
    result [p]: the heap has only grown, and the array returned is new. *)
Definition fresh_post (h : Store.heap) (p : result array)
    (rh : result Store.loc * Store.heap) : Prop :=
  h ⊆ rh.2
  ∧ match rh.1 with
    | Ok t => h !! t = None ∧ ∃ v, rh.2 !! t = Some v ∧ p = Ok v
    | Raise e => p = Raise e
    end.

(** [c] computes [p] from the dataset as it is in [h0], in any later heap. *)
Definition implements (h0 : Store.heap) (c : Store.M Store.loc)
    (p : result array) : Prop :=
  ∀ h, h0 ⊆ h → fresh_post h p (c h).

(** * The keys of a call and further example inputs *)

(** The dataset keys a call reads, in the order the code reads them. *)
Definition keys (m : model) : list string :=
  match m with
  | Iid_spin _ _ _ _ _ => ["cos_tilt_1"; "cos_tilt_2"; "a_1"; "a_2"]
  | Iid_spin_magnitude_beta _ _ _
  | Independent_spin_magnitude_beta _ _ _ _ _ _ => ["a_1"; "a_2"]
  | Iid_spin_orientation_gaussian_isotropic _ _
  | Independent_spin_orientation_gaussian_isotropic _ _ _ =>
      ["cos_tilt_1"; "cos_tilt_2"]
  | Gaussian_chi_eff _ _ | Skew_gaussian_chi_eff _ _ _ => ["chi_eff"]
  | Gaussian_chi_p _ _ | Skew_gaussian_chi_p _ _ _ => ["chi_p"]
  | Gaussian_chi_p_chi_eff _ _ _ _ _
  | Gaussian_chi_p_chi_eff_skew _ _ _ _ _ _ _ => ["chi_eff"; "chi_p"]
  end.

(** The mixing fraction of a call, where it has one, lies in [[0, 1]]. *)
Definition mixing_fraction_valid (m : model) : Prop :=
  match m with
  | Iid_spin xi_spin _ _ _ _
  | Iid_spin_orientation_gaussian_isotropic xi_spin _
  | Independent_spin_orientation_gaussian_isotropic xi_spin _ _ =>
      0 ≤ xi_spin ∧ xi_spin ≤ 1
  | _ => True
  end.

(** Densities and kernels that are 1 everywhere. *)
Definition one_beta (x alpha beta scale : Qc) : Qc := 1.
Definition one_normal (x mu sigma high low : Qc) : Qc := 1.
Definition one_skew_normal (x mu sigma alpha high low : Qc) : Qc := 1.
Definition one_kernel (x y mu_x mu_y sigma_x sigma_y rho : Qc) : Qc := 1.
Definition one_skew_kernel
    (x y mu_x mu_y sigma_x sigma_y skew_x skew_y rho : Qc) : Qc := 1.

(** One effective aligned spin against three precessing spins. *)
Definition one_against_three : gmap string array :=
  {[ "chi_eff" := [qc 1 2]; "chi_p" := [0; qc 1 2; qc 3 2] ]}.

(** Magnitudes of three and of two samples. *)
Definition three_against_two : gmap string array :=
  {[ "a_1" := [0; qc 1 2; 1]; "a_2" := [qc 1 4; qc 3 4] ]}.

(** Two samples for the first component against one for the second, and two
    effective aligned spins against one precessing spin. *)
Definition two_against_one : gmap string array :=
  {[ "a_1" := [qc 1 2; qc 1 4]; "a_2" := [qc 3 10];
     "cos_tilt_1" := [1; qc (-1) 2]; "cos_tilt_2" := [qc 1 2];
     "chi_eff" := [0; qc 1 2]; "chi_p" := [qc 1 2] ]}.

(** * Properties *)

(** ** Results, look-ups and broadcasting *)

Lemma getitem_Some (dataset : gmap string array) key a :
  dataset !! key = Some a → getitem dataset key = Ok a.
Proof. unfold getitem. by intros ->. Qed.

Lemma getitem_None (dataset : gmap string array) key :
  dataset !! key = None → getitem dataset key = Raise (KeyError key).
Proof. unfold getitem. by intros ->. Qed.

Lemma broadcast_same {A B C} (f : A → B → C) a b :
  length a = length b → broadcast f a b = Ok (zip_with f a b).
Proof. intros E. unfold broadcast. by rewrite decide_True. Qed.

Lemma inplace_same {A B} (f : A → B → A) prob other :
  length prob = length other → inplace f prob other = Ok (zip_with f prob other).
Proof. intros E. unfold inplace. by rewrite decide_True. Qed.

Lemma fmap_zip_with_out {A B C D} (g : C → D) (f : A → B → C) l k :
  g <$> zip_with f l k = zip_with (λ x y, g (f x y)) l k.
Proof. revert k. induction l; intros [|??]; simpl; f_equal; auto. Qed.

Lemma qc_canon (x y : Qc) : Qeq x y → x = y.
Proof. apply Qc_is_canon. Qed.

(** Closes an equation between two closed rationals. *)
Ltac qc_compute := apply qc_canon; vm_compute; reflexivity.

Lemma four_nonzero : qc 4 1 ≠ 0.
Proof. done. Qed.

Lemma two_nonzero : qc 2 1 ≠ 0.
Proof. done. Qed.

Section Marginals.

Variable beta_pdf : Qc → Qc → Qc → Qc → Qc.
Variable normal_pdf : Qc → Qc → Qc → Qc → Qc → Qc.

(** ** Spin magnitudes *)

Lemma independent_spin_magnitude_beta_pointwise
    (dataset : gmap string array) (a_1 a_2 : array)
    (alpha_chi_1 alpha_chi_2 beta_chi_1 beta_chi_2 amax_1 amax_2 : Qc) :
  dataset !! "a_1" = Some a_1 →
  dataset !! "a_2" = Some a_2 →
  length a_1 = length a_2 →
  independent_spin_magnitude_beta beta_pdf dataset
    alpha_chi_1 alpha_chi_2 beta_chi_1 beta_chi_2 amax_1 amax_2
  = Ok (zip_with (λ x y, beta_pdf x alpha_chi_1 beta_chi_1 amax_1
                         * beta_pdf y alpha_chi_2 beta_chi_2 amax_2) a_1 a_2).
Proof.
  intros H1 H2 Hlen. unfold independent_spin_magnitude_beta, beta_dist.
  rewrite (getitem_Some _ _ _ H1), (getitem_Some _ _ _ H2). simpl.
  rewrite broadcast_same by (by rewrite !length_fmap).
  by rewrite zip_with_fmap_l, zip_with_fmap_r.
Qed.

(** C7: the i.i.d. magnitude density is the independent density called with
    the same shape parameters and the same maximum for both components, and
    on a dataset with magnitudes of one length both are the elementwise
    product of the two rescaled beta densities. *)
Theorem iid_magnitude_specialises_independent
    (dataset : gmap string array) (amax alpha_chi beta_chi : Qc) :
  iid_spin_magnitude_beta beta_pdf dataset amax alpha_chi beta_chi
  = independent_spin_magnitude_beta beta_pdf dataset
      alpha_chi alpha_chi beta_chi beta_chi amax amax
  ∧ ∀ a_1 a_2 : array,
      dataset !! "a_1" = Some a_1 →
      dataset !! "a_2" = Some a_2 →
      length a_1 = length a_2 →
      iid_spin_magnitude_beta beta_pdf dataset amax alpha_chi beta_chi
      = Ok (zip_with (λ x y, beta_pdf x alpha_chi beta_chi amax
                             * beta_pdf y alpha_chi beta_chi amax) a_1 a_2).
Proof.
  split; [reflexivity|]. intros a_1 a_2 H1 H2 Hlen.
  unfold iid_spin_magnitude_beta.
  by apply independent_spin_magnitude_beta_pointwise.
Qed.

(** ** Spin orientations *)

Lemma independent_orientation_pointwise
    (dataset : gmap string array) (z1 z2 : array)
    (xi_spin sigma_1 sigma_2 : Qc) :
  dataset !! "cos_tilt_1" = Some z1 →
  dataset !! "cos_tilt_2" = Some z2 →
  length z1 = length z2 →
  independent_spin_orientation_gaussian_isotropic normal_pdf dataset
    xi_spin sigma_1 sigma_2
  = Ok (zip_with (tilt_mixture normal_pdf xi_spin sigma_1 sigma_2) z1 z2).
Proof.
  intros H1 H2 Hlen.
  unfold independent_spin_orientation_gaussian_isotropic, truncnorm.
  rewrite (getitem_Some _ _ _ H1), (getitem_Some _ _ _ H2). simpl.
  rewrite broadcast_same by (by rewrite !length_fmap). simpl.
  rewrite <- list_fmap_compose, zip_with_fmap_l, zip_with_fmap_r.
  by rewrite fmap_zip_with_out.
Qed.


(** C1: at the aligned pair with [xi_spin = 1/2] the two orientation models
    return [1/8 + N * N / 2], the isotropic weight being [(1 - xi) / 4],
    where the documented density [(1 - xi)^2 / 4 + xi * N * N] is
    [1/16 + N * N / 2]. *)
Theorem isotropic_weight_is_not_squared :
  let N := truncnorm_at normal_pdf 1 1 (qc 1 2) 1 (-1) in
  independent_spin_orientation_gaussian_isotropic normal_pdf aligned_dataset
    (qc 1 2) (qc 1 2) (qc 1 2) = Ok [qc 1 8 + qc 1 2 * N * N]
  ∧ iid_spin_orientation_gaussian_isotropic normal_pdf aligned_dataset
      (qc 1 2) (qc 1 2) = Ok [qc 1 8 + qc 1 2 * N * N]
  ∧ documented_tilt_mixture normal_pdf (qc 1 2) (qc 1 2) (qc 1 2) 1 1
    = qc 1 16 + qc 1 2 * N * N
  ∧ qc 1 8 + qc 1 2 * N * N ≠ qc 1 16 + qc 1 2 * N * N.
Proof.
  intros N.
  assert (independent_spin_orientation_gaussian_isotropic normal_pdf
            aligned_dataset (qc 1 2) (qc 1 2) (qc 1 2)
          = Ok [qc 1 8 + qc 1 2 * N * N]) as Hcode.
  { rewrite (independent_orientation_pointwise _ [1] [1]) by done.
    simpl. unfold tilt_mixture. fold N.
    by replace ((1 - qc 1 2) / qc 4 1) with (qc 1 8) by qc_compute. }
  split; [exact Hcode|]. split; [exact Hcode|]. split.
  - unfold documented_tilt_mixture. fold N.
    replace ((1 - qc 1 2) * (1 - qc 1 2) / qc 4 1) with (qc 1 16)
      by qc_compute.
    by rewrite Qcmult_assoc.
  - intros H. apply (f_equal (λ v, v - qc 1 2 * N * N)) in H.
    ring_simplify in H. discriminate H.
Qed.

(** C5, as amended: with [xi_spin = 0] both orientation models return 1/4
    at every sample, whatever the widths, and with [xi_spin = 1] they return
    the product of the two truncated normals centred at 1. *)
Theorem tilt_mixture_endpoints
    (dataset : gmap string array) (z1 z2 : array) (sigma_1 sigma_2 : Qc) :
  dataset !! "cos_tilt_1" = Some z1 →
  dataset !! "cos_tilt_2" = Some z2 →
  length z1 = length z2 →
  independent_spin_orientation_gaussian_isotropic normal_pdf dataset
    0 sigma_1 sigma_2 = Ok (zip_with (λ _ _, qc 1 4) z1 z2)
  ∧ independent_spin_orientation_gaussian_isotropic normal_pdf dataset
      1 sigma_1 sigma_2
    = Ok (zip_with (λ a b, truncnorm_at normal_pdf a 1 sigma_1 1 (-1)
                           * truncnorm_at normal_pdf b 1 sigma_2 1 (-1)) z1 z2)
  ∧ iid_spin_orientation_gaussian_isotropic normal_pdf dataset 0 sigma_1
    = Ok (zip_with (λ _ _, qc 1 4) z1 z2)
  ∧ iid_spin_orientation_gaussian_isotropic normal_pdf dataset 1 sigma_1
    = Ok (zip_with (λ a b, truncnorm_at normal_pdf a 1 sigma_1 1 (-1)
                           * truncnorm_at normal_pdf b 1 sigma_1 1 (-1)) z1 z2).
Proof.
  intros H1 H2 Hlen.
  assert (∀ s1 s2 a b, tilt_mixture normal_pdf 0 s1 s2 a b = qc 1 4) as E0.
  { intros. unfold tilt_mixture.
    replace (qc 1 4) with (1 / qc 4 1) by qc_compute.
    field. apply four_nonzero. }
  assert (∀ s1 s2 a b, tilt_mixture normal_pdf 1 s1 s2 a b
            = truncnorm_at normal_pdf a 1 s1 1 (-1)
              * truncnorm_at normal_pdf b 1 s2 1 (-1)) as E1.
  { intros. unfold tilt_mixture. field. apply four_nonzero. }
  unfold iid_spin_orientation_gaussian_isotropic.
  rewrite !(independent_orientation_pointwise _ z1 z2) by done.
  repeat split; f_equal; apply zip_with_ext; auto.
Qed.

(** C6: for the dataset of one aligned pair, [xi_spin = 0.5] and
    [sigma_spin = 0.5], the i.i.d. orientation model returns the single value
    [0.5 * (1/4) + 0.5 * N * N] with [N] the truncated normal at its peak. *)
Theorem aligned_pair_scenario :
  let N := truncnorm_at normal_pdf 1 1 (qc 1 2) 1 (-1) in
  iid_spin_orientation_gaussian_isotropic normal_pdf aligned_dataset
    (qc 1 2) (qc 1 2)
  = Ok [qc 1 2 * (1 / qc 4 1) + qc 1 2 * (N * N)].
Proof.
  intros N. unfold iid_spin_orientation_gaussian_isotropic.
  rewrite (independent_orientation_pointwise _ [1] [1]) by done.
  simpl. unfold tilt_mixture. fold N. do 2 f_equal.
  replace (1 - qc 1 2) with (qc 1 2) by qc_compute.
  field. apply four_nonzero.
Qed.

End Marginals.

(** ** The array module *)

Lemma Qcabs_le_1 (x : Qc) : Qcabs x ≤ 1 ↔ -1 ≤ x ∧ x ≤ 1.
Proof.
  unfold Qcabs. destruct (decide (0 ≤ x)) as [Hx|Hx].
  - split; [|tauto]. intros H. split; [|done].
    by apply Qcle_trans with 0.
  - apply Qcnot_le_lt in Hx. split.
    + intros H. split.
      * apply Qcopp_le_compat in H. by rewrite Qcopp_involutive in H.
      * apply Qclt_le_weak, Qclt_trans with 0; done.
    + intros [H _]. apply Qcopp_le_compat in H.
      by rewrite Qcopp_involutive in H.
Qed.

Lemma linspace_chi_eff : linspace (-1) 1 500 = chi_eff_points.
Proof.
  unfold linspace, chi_eff_points. apply list_fmap_ext. intros _ i _.
  replace ((1 - -1) / Qc_of_nat (500 - 1)) with (qc 2 499) by qc_compute.
  ring.
Qed.

Lemma linspace_chi_p : linspace 0 1 250 = chi_p_points.
Proof.
  unfold linspace, chi_p_points. apply list_fmap_ext. intros _ i _.
  replace ((1 - 0) / Qc_of_nat (250 - 1)) with (qc 1 249) by qc_compute.
  ring.
Qed.

Lemma trapz_sum (f : Qc → Qc) (x : array) :
  sum ((λ v, v / qc 2 1) <$>
       zip_with Qcmult (diff x)
         (zip_with Qcplus (tail (f <$> x)) (removelast (f <$> x))))
  = trapezoid_rule f x.
Proof.
  unfold diff. induction x as [|a [|b x] IH]; [done..|].
  change (tail (a :: b :: x)) with (b :: x).
  change (tail (f <$> a :: b :: x)) with (f b :: (f <$> x)).
  change (removelast (a :: b :: x)) with (a :: removelast (b :: x)).
  change (removelast (f <$> a :: b :: x))
    with (f a :: removelast (f <$> b :: x)).
  change (trapezoid_rule f (a :: b :: x))
    with ((b - a) * (f b + f a) / qc 2 1 + trapezoid_rule f (b :: x)).
  rewrite <- IH. reflexivity.
Qed.

Lemma length_removelast {A} (l : list A) :
  length (removelast l) = length (tail l).
Proof. induction l as [|a [|b l] IH]; [done..|]. simpl in *. by rewrite IH. Qed.

Lemma trapz_fmap (f : Qc → Qc) (x : array) :
  trapz (f <$> x) x = Ok (trapezoid_rule f x).
Proof.
  unfold trapz. rewrite broadcast_same.
  - simpl. by rewrite trapz_sum.
  - unfold diff. rewrite !length_zip_with, !length_removelast.
    destruct x; simpl; [done|]. rewrite length_fmap. lia.
Qed.

Lemma kernel_on_mesh (kernel : Qc → Qc → Qc) (x y : array) :
  zip_with (zip_with kernel) (meshgrid x y).1 (meshgrid x y).2
  = (λ yj, (λ xi, kernel xi yj) <$> x) <$> y.
Proof.
  unfold meshgrid. cbn [fst snd].
  rewrite zip_with_fmap_l, zip_with_fmap_r, zip_with_diag.
  apply list_fmap_ext. intros _ yj _.
  by rewrite zip_with_fmap_r, zip_with_diag.
Qed.

Lemma trapz_rows_mesh (kernel : Qc → Qc → Qc) (x y : array) :
  trapz_rows (zip_with (zip_with kernel) (meshgrid x y).1 (meshgrid x y).2) x
  = Ok ((λ yj, trapezoid_rule (λ xi, kernel xi yj) x) <$> y).
Proof.
  rewrite kernel_on_mesh. unfold trapz_rows.
  induction y as [|yj y IH]; [done|].
  cbn [fmap list_fmap mapM]. rewrite trapz_fmap.
  cbn [mbind result_bind]. rewrite IH. done.
Qed.

Lemma quadrature_on_mesh (kernel : Qc → Qc → Qc) (x y : array) :
  (trapz_rows (zip_with (zip_with kernel) (meshgrid x y).1 (meshgrid x y).2) x
   ≫= λ inner, trapz inner y)
  = Ok (trapezoid_rule (λ yj, trapezoid_rule (λ xi, kernel xi yj) x) y).
Proof. rewrite trapz_rows_mesh. simpl. apply trapz_fmap. Qed.


(** ** The two paths of the correlated models *)

Lemma masked_zip (kernel : Qc → Qc → Qc) (n : Qc) (m1 m2 m3 : Qc → bool)
    (xs ys : array) :
  zip_with (λ p b, p * bool_to_Qc b)
    (zip_with (λ p b, p * bool_to_Qc b)
       ((λ p, p / n) <$> zip_with kernel xs ys) (m1 <$> xs))
    (zip_with andb (m2 <$> ys) (m3 <$> ys))
  = zip_with (λ x y, kernel x y / n * bool_to_Qc (m1 x)
                     * bool_to_Qc (m2 y && m3 y)) xs ys.
Proof.
  revert ys. induction xs as [|x xs IH]; intros [|y ys]; [done..|].
  simpl. f_equal. apply IH.
Qed.

(** What the branch for [rho ≠ 0] does once the kernel at the samples and
    the normalising constant are known. *)
Lemma general_path_masks (xs ys : array) (kernel : Qc → Qc → Qc) (n : Qc) :
  length xs = length ys →
  (imul_mask ((λ p, p / n) <$> zip_with kernel xs ys) (chi_eff_mask xs)
   ≫= λ prob, chi_p_mask ys ys ≫= λ mask, imul_mask prob mask)
  = Ok (zip_with (masked_density kernel n) xs ys).
Proof.
  intros Hlen. unfold imul_mask, chi_eff_mask, chi_p_mask.
  rewrite inplace_same
    by (by rewrite !length_fmap, length_zip_with, <- Hlen, Nat.min_id).
  cbn [mbind result_bind].
  rewrite broadcast_same by (by rewrite !length_fmap).
  cbn [mbind result_bind].
  rewrite inplace_same
    by (by rewrite !length_zip_with, !length_fmap, length_zip_with, <- Hlen,
           !Nat.min_id).
  by rewrite masked_zip.
Qed.


Lemma masked_density_inside (kernel : Qc → Qc → Qc) (n x y : Qc) :
  -1 ≤ x ∧ x ≤ 1 → 0 ≤ y ∧ y ≤ 1 → masked_density kernel n x y = kernel x y / n.
Proof.
  intros Hx [Hy0 Hy1]. unfold masked_density.
  rewrite (bool_decide_eq_true_2 (Qcabs x ≤ 1)) by (by apply Qcabs_le_1).
  rewrite (bool_decide_eq_true_2 (y ≤ 1)), (bool_decide_eq_true_2 (0 ≤ y)) by done.
  unfold bool_to_Qc, andb. ring.
Qed.


Lemma lookup_zip_with_Some_both {A B C} (f : A → B → C) l k i x y :
  l !! i = Some x → k !! i = Some y → zip_with f l k !! i = Some (f x y).
Proof. intros Hx Hy. by rewrite lookup_zip_with, Hx, Hy. Qed.


Lemma masked_quotient_inside (kernel : Qc → Qc → Qc) (n x y : Qc) :
  n ≠ 0 → -1 ≤ x ∧ x ≤ 1 → 0 ≤ y ∧ y ≤ 1 →
  masked_quotient kernel n x y = Nonfinite.Finite (kernel x y / n).
Proof.
  intros Hn Hx Hy. unfold masked_quotient, Nonfinite.divide.
  rewrite decide_False by done. cbn [Nonfinite.times_mask]. f_equal.
  apply (masked_density_inside kernel n x y Hx Hy).
Qed.


Section Bivariate.

Variable normal_pdf : Qc → Qc → Qc → Qc → Qc → Qc.
Variable skew_normal_pdf : Qc → Qc → Qc → Qc → Qc → Qc → Qc.
Variable kernel_2d : Qc → Qc → Qc → Qc → Qc → Qc → Qc → Qc.
Variable skew_kernel_2d : Qc → Qc → Qc → Qc → Qc → Qc → Qc → Qc → Qc → Qc.

(** ** The normalising constant *)

Lemma normalization_quadrature
    (mu_chi_eff sigma_chi_eff mu_chi_p sigma_chi_p rho : Qc) :
  _normalization kernel_2d mu_chi_eff sigma_chi_eff mu_chi_p sigma_chi_p rho
  = Ok (grid_quadrature (λ x y,
          kernel_2d x y mu_chi_eff mu_chi_p sigma_chi_eff sigma_chi_p rho)).
Proof.
  unfold _normalization, unnormalized_2d_gaussian_grid, grid_quadrature.
  rewrite linspace_chi_eff, linspace_chi_p.
  apply (quadrature_on_mesh
           (λ x y, kernel_2d x y mu_chi_eff mu_chi_p sigma_chi_eff
                     sigma_chi_p rho)).
Qed.

Lemma normalization_skew_quadrature
    (mu_chi_eff sigma_chi_eff mu_chi_p sigma_chi_p skew_chi_eff skew_chi_p
     rho : Qc) :
  _normalization_skew skew_kernel_2d mu_chi_eff sigma_chi_eff mu_chi_p
    sigma_chi_p skew_chi_eff skew_chi_p rho
  = Ok (grid_quadrature (λ x y,
          skew_kernel_2d x y mu_chi_eff mu_chi_p sigma_chi_eff sigma_chi_p
            skew_chi_eff skew_chi_p rho)).
Proof.
  unfold _normalization_skew, unnormalized_2d_skew_gaussian_grid,
    grid_quadrature.
  rewrite linspace_chi_eff, linspace_chi_p.
  apply (quadrature_on_mesh
           (λ x y, skew_kernel_2d x y mu_chi_eff mu_chi_p sigma_chi_eff
                     sigma_chi_p skew_chi_eff skew_chi_p rho)).
Qed.


(** ** Fast path and general path *)

Lemma gaussian_fast_path (dataset : gmap string array) (xs ys : array)
    (mu_chi_eff sigma_chi_eff mu_chi_p sigma_chi_p : Qc) :
  dataset !! "chi_eff" = Some xs →
  dataset !! "chi_p" = Some ys →
  length xs = length ys →
  gaussian_chi_p_chi_eff normal_pdf kernel_2d dataset
    mu_chi_eff sigma_chi_eff mu_chi_p sigma_chi_p 0
  = Ok (zip_with (λ x y, truncnorm_at normal_pdf x mu_chi_eff sigma_chi_eff 1 (-1)
                         * truncnorm_at normal_pdf y mu_chi_p sigma_chi_p 1 0)
          xs ys).
Proof.
  intros H1 H2 Hlen.
  unfold gaussian_chi_p_chi_eff, gaussian_chi_eff, gaussian_chi_p, truncnorm.
  rewrite decide_True by done.
  rewrite (getitem_Some _ _ _ H1), (getitem_Some _ _ _ H2).
  cbn [mbind result_bind].
  rewrite inplace_same by (by rewrite !length_fmap).
  by rewrite zip_with_fmap_l, zip_with_fmap_r.
Qed.

Lemma skew_fast_path (dataset : gmap string array) (xs ys : array)
    (mu_chi_eff sigma_chi_eff mu_chi_p sigma_chi_p skew_chi_eff skew_chi_p
     : Qc) :
  dataset !! "chi_eff" = Some xs →
  dataset !! "chi_p" = Some ys →
  length xs = length ys →
  gaussian_chi_p_chi_eff_skew skew_normal_pdf skew_kernel_2d dataset
    mu_chi_eff sigma_chi_eff mu_chi_p sigma_chi_p skew_chi_eff skew_chi_p 0
  = Ok (zip_with
          (λ x y, truncskewnorm_at skew_normal_pdf x mu_chi_eff sigma_chi_eff
                    skew_chi_eff 1 (-1)
                  * truncskewnorm_at skew_normal_pdf y mu_chi_p sigma_chi_p
                      skew_chi_p 1 0)
          xs ys).
Proof.
  intros H1 H2 Hlen.
  unfold gaussian_chi_p_chi_eff_skew, skew_gaussian_chi_eff,
    skew_gaussian_chi_p, truncskewnorm.
  rewrite decide_True by done.
  rewrite (getitem_Some _ _ _ H1), (getitem_Some _ _ _ H2).
  cbn [mbind result_bind].
  rewrite inplace_same by (by rewrite !length_fmap).
  by rewrite zip_with_fmap_l, zip_with_fmap_r.
Qed.

Lemma gaussian_general_path (dataset : gmap string array) (xs ys : array)
    (mu_chi_eff sigma_chi_eff mu_chi_p sigma_chi_p rho : Qc) :
  rho ≠ 0 →
  dataset !! "chi_eff" = Some xs →
  dataset !! "chi_p" = Some ys →
  length xs = length ys →
  let kernel x y :=
    kernel_2d x y mu_chi_eff mu_chi_p sigma_chi_eff sigma_chi_p rho in
  gaussian_chi_p_chi_eff normal_pdf kernel_2d dataset
    mu_chi_eff sigma_chi_eff mu_chi_p sigma_chi_p rho
  = Ok (zip_with (masked_density kernel (grid_quadrature kernel)) xs ys).
Proof.
  intros Hrho H1 H2 Hlen kernel.
  unfold gaussian_chi_p_chi_eff, unnormalized_2d_gaussian.
  rewrite decide_False by done.
  rewrite (getitem_Some _ _ _ H1), (getitem_Some _ _ _ H2).
  cbn [mbind result_bind].
  rewrite broadcast_same by done. rewrite normalization_quadrature.
  cbn [mbind result_bind]. fold kernel.
  by apply general_path_masks.
Qed.

Lemma skew_general_path (dataset : gmap string array) (xs ys : array)
    (mu_chi_eff sigma_chi_eff mu_chi_p sigma_chi_p skew_chi_eff skew_chi_p
     rho : Qc) :
  rho ≠ 0 →
  dataset !! "chi_eff" = Some xs →
  dataset !! "chi_p" = Some ys →
  length xs = length ys →
  let kernel x y :=
    skew_kernel_2d x y mu_chi_eff mu_chi_p sigma_chi_eff sigma_chi_p
      skew_chi_eff skew_chi_p rho in
  gaussian_chi_p_chi_eff_skew skew_normal_pdf skew_kernel_2d dataset
    mu_chi_eff sigma_chi_eff mu_chi_p sigma_chi_p skew_chi_eff skew_chi_p rho
  = Ok (zip_with (masked_density kernel (grid_quadrature kernel)) xs ys).
Proof.
  intros Hrho H1 H2 Hlen kernel.
  unfold gaussian_chi_p_chi_eff_skew, unnormalized_2d_skew_gaussian.
  rewrite decide_False by done.
  rewrite (getitem_Some _ _ _ H1), (getitem_Some _ _ _ H2).
  cbn [mbind result_bind].
  rewrite broadcast_same by done. rewrite normalization_skew_quadrature.
  cbn [mbind result_bind]. fold kernel.
  by apply general_path_masks.
Qed.


Lemma truncnorm_at_outside (x mu sigma high low : Qc) :
  ¬ (low ≤ x ∧ x ≤ high) → truncnorm_at normal_pdf x mu sigma high low = 0.
Proof. intros H. unfold truncnorm_at. by rewrite decide_False. Qed.

Lemma truncskewnorm_at_outside (x mu sigma alpha high low : Qc) :
  ¬ (low ≤ x ∧ x ≤ high) →
  truncskewnorm_at skew_normal_pdf x mu sigma alpha high low = 0.
Proof. intros H. unfold truncskewnorm_at. by rewrite decide_False. Qed.

(** ** The claims on the correlated models *)






(** C4: the normalising constant of either model is the nested trapezoidal
    quadrature of its kernel on the mesh of 500 equally spaced points of
    [[-1, 1]] for [chi_eff] and 250 of [[0, 1]] for [chi_p], over [chi_eff]
    first; for [rho ≠ 0] the density of a sample inside the support is the
    kernel at the sample divided by that constant. *)
Theorem normalised_by_grid_quadrature
    (dataset : gmap string array) (xs ys : array)
    (mu_chi_eff sigma_chi_eff mu_chi_p sigma_chi_p skew_chi_eff skew_chi_p
     rho : Qc) :
  rho ≠ 0 →
  dataset !! "chi_eff" = Some xs →
  dataset !! "chi_p" = Some ys →
  length xs = length ys →
  let kernel x y :=
    kernel_2d x y mu_chi_eff mu_chi_p sigma_chi_eff sigma_chi_p rho in
  let skew_kernel x y :=
    skew_kernel_2d x y mu_chi_eff mu_chi_p sigma_chi_eff sigma_chi_p
      skew_chi_eff skew_chi_p rho in
  (linspace (-1) 1 500 = chi_eff_points ∧ length chi_eff_points = 500
   ∧ chi_eff_points !! 0%nat = Some (-1) ∧ chi_eff_points !! 499%nat = Some 1)
  ∧ (linspace 0 1 250 = chi_p_points ∧ length chi_p_points = 250
     ∧ chi_p_points !! 0%nat = Some 0 ∧ chi_p_points !! 249%nat = Some 1)
  ∧ _normalization kernel_2d mu_chi_eff sigma_chi_eff mu_chi_p sigma_chi_p rho
    = Ok (grid_quadrature kernel)
  ∧ _normalization_skew skew_kernel_2d mu_chi_eff sigma_chi_eff mu_chi_p
      sigma_chi_p skew_chi_eff skew_chi_p rho
    = Ok (grid_quadrature skew_kernel)
  ∧ ∃ out out_skew : array,
      gaussian_chi_p_chi_eff normal_pdf kernel_2d dataset
        mu_chi_eff sigma_chi_eff mu_chi_p sigma_chi_p rho = Ok out
      ∧ gaussian_chi_p_chi_eff_skew skew_normal_pdf skew_kernel_2d dataset
          mu_chi_eff sigma_chi_eff mu_chi_p sigma_chi_p
          skew_chi_eff skew_chi_p rho = Ok out_skew
      ∧ ∀ (i : nat) (x y : Qc),
          xs !! i = Some x → ys !! i = Some y →
          -1 ≤ x ∧ x ≤ 1 → 0 ≤ y ∧ y ≤ 1 →
          out !! i = Some (kernel x y / grid_quadrature kernel)
          ∧ out_skew !! i
            = Some (skew_kernel x y / grid_quadrature skew_kernel).
Proof.
  intros Hrho H1 H2 Hlen kernel skew_kernel.
  split; [|split].
  - split; [apply linspace_chi_eff|]. unfold chi_eff_points.
    rewrite length_fmap, length_seq, !list_lookup_fmap.
    rewrite !lookup_seq_lt by lia. cbn [fmap option_fmap option_map].
    repeat split; f_equal; qc_compute.
  - split; [apply linspace_chi_p|]. unfold chi_p_points.
    rewrite length_fmap, length_seq, !list_lookup_fmap.
    rewrite !lookup_seq_lt by lia. cbn [fmap option_fmap option_map].
    repeat split; f_equal; qc_compute.
  - split; [apply normalization_quadrature|].
    split; [apply normalization_skew_quadrature|].
    eexists _, _. split; [by apply gaussian_general_path|].
    split; [by apply skew_general_path|].
    intros i x y Hx Hy Hin1 Hin2.
    rewrite !(lookup_zip_with_Some_both _ _ _ _ _ _ Hx Hy).
    by rewrite !masked_density_inside.
Qed.

(** C10: for [rho ≠ 0] the masks of both models keep the boundary of the
    support: the comparisons are not strict, so a sample with [chi_eff] equal
    to -1 or 1, or [chi_p] equal to 0 or 1, the other coordinate being in its
    interval, keeps the kernel value divided by the normalising constant. *)
Theorem boundary_of_support_kept
    (dataset : gmap string array) (xs ys : array)
    (mu_chi_eff sigma_chi_eff mu_chi_p sigma_chi_p skew_chi_eff skew_chi_p
     rho : Qc) :
  rho ≠ 0 →
  dataset !! "chi_eff" = Some xs →
  dataset !! "chi_p" = Some ys →
  length xs = length ys →
  let kernel x y :=
    kernel_2d x y mu_chi_eff mu_chi_p sigma_chi_eff sigma_chi_p rho in
  let skew_kernel x y :=
    skew_kernel_2d x y mu_chi_eff mu_chi_p sigma_chi_eff sigma_chi_p
      skew_chi_eff skew_chi_p rho in
  chi_eff_mask [-1; 1] = [true; true]
  ∧ chi_p_mask [0; 1] [0; 1] = Ok [true; true]
  ∧ ∃ out out_skew : array,
      gaussian_chi_p_chi_eff normal_pdf kernel_2d dataset
        mu_chi_eff sigma_chi_eff mu_chi_p sigma_chi_p rho = Ok out
      ∧ gaussian_chi_p_chi_eff_skew skew_normal_pdf skew_kernel_2d dataset
          mu_chi_eff sigma_chi_eff mu_chi_p sigma_chi_p
          skew_chi_eff skew_chi_p rho = Ok out_skew
      ∧ ∀ (i : nat) (x y : Qc),
          xs !! i = Some x → ys !! i = Some y →
          (x = -1 ∨ x = 1) ∧ (0 ≤ y ∧ y ≤ 1)
          ∨ (y = 0 ∨ y = 1) ∧ (-1 ≤ x ∧ x ≤ 1) →
          out !! i = Some (kernel x y / grid_quadrature kernel)
          ∧ out_skew !! i
            = Some (skew_kernel x y / grid_quadrature skew_kernel).
Proof.
  intros Hrho H1 H2 Hlen kernel skew_kernel.
  split; [reflexivity|]. split; [reflexivity|].
  eexists _, _. split; [by apply gaussian_general_path|].
  split; [by apply skew_general_path|].
  intros i x y Hx Hy Hb.
  rewrite !(lookup_zip_with_Some_both _ _ _ _ _ _ Hx Hy).
  assert ((-1 ≤ x ∧ x ≤ 1) ∧ (0 ≤ y ∧ y ≤ 1)) as [Hin1 Hin2].
  { destruct Hb as [[[->| ->] Hy']|[[->| ->] Hx']]; done. }
  by rewrite !masked_density_inside.
Qed.

End Bivariate.

(** ** The models on the store *)

Section Steps.

Import Store.

Context {A : Type} (Q : result A * heap → Prop).

Lemma step_getitem_Some (dataset : gmap string loc) key l
    (k : loc → M A) (h : heap) :
  dataset !! key = Some l → Q (k l h) → Q ((getitem dataset key ≫= k) h).
Proof. intros E HQ. unfold getitem. by rewrite E. Qed.

Lemma step_getitem_None (dataset : gmap string loc) key
    (k : loc → M A) (h : heap) :
  dataset !! key = None → Q (Raise (KeyError key), h) →
  Q ((getitem dataset key ≫= k) h).
Proof. intros E HQ. unfold getitem. by rewrite E. Qed.

Lemma step_load (l : loc) (a : array) (k : array → M A) (h : heap) :
  h !! l = Some a → Q (k a h) → Q ((load l ≫= k) h).
Proof.
  intros E HQ. unfold load, mbind, M_bind.
  by rewrite (lookup_total_correct _ _ _ E).
Qed.

Lemma step_lift_Ok {B} (b : B) (k : B → M A) (h : heap) :
  Q (k b h) → Q ((lift (Ok b) ≫= k) h).
Proof. done. Qed.

Lemma step_lift_Raise {B} (e : exn) (k : B → M A) (h : heap) :
  Q (Raise e, h) → Q ((lift (Raise e) ≫= k) h).
Proof. done. Qed.

Lemma step_call1 (f : array → array) (l : loc) (a : array)
    (k : loc → M A) (h : heap) :
  h !! l = Some a →
  (∀ t, h !! t = None → Q (k t (<[t := f a]> h))) →
  Q ((call1 f l ≫= k) h).
Proof.
  intros E HQ. unfold call1, load, alloc, mbind, M_bind.
  rewrite (lookup_total_correct _ _ _ E).
  apply HQ, not_elem_of_dom, is_fresh.
Qed.

Lemma step_call2_Ok (f : array → array → result array) (l1 l2 : loc)
    (a b c : array) (k : loc → M A) (h : heap) :
  h !! l1 = Some a → h !! l2 = Some b → f a b = Ok c →
  (∀ t, h !! t = None → Q (k t (<[t := c]> h))) →
  Q ((call2 f l1 l2 ≫= k) h).
Proof.
  intros E1 E2 Ef HQ. unfold call2, load, alloc, lift, mbind, M_bind.
  rewrite (lookup_total_correct _ _ _ E1), (lookup_total_correct _ _ _ E2), Ef.
  apply HQ, not_elem_of_dom, is_fresh.
Qed.

Lemma step_call2_Raise (f : array → array → result array) (l1 l2 : loc)
    (a b : array) (e : exn) (k : loc → M A) (h : heap) :
  h !! l1 = Some a → h !! l2 = Some b → f a b = Raise e →
  Q (Raise e, h) → Q ((call2 f l1 l2 ≫= k) h).
Proof.
  intros E1 E2 Ef HQ. unfold call2, load, alloc, lift, mbind, M_bind.
  by rewrite (lookup_total_correct _ _ _ E1), (lookup_total_correct _ _ _ E2), Ef.
Qed.

Lemma step_update_Ok (f : array → result array) (l : loc) (a c : array)
    (k : unit → M A) (h : heap) :
  h !! l = Some a → f a = Ok c →
  Q (k tt (<[l := c]> h)) → Q ((update f l ≫= k) h).
Proof.
  intros E Ef HQ. unfold update, load, store, lift, mbind, M_bind.
  by rewrite (lookup_total_correct _ _ _ E), Ef.
Qed.

Lemma step_update_Raise (f : array → result array) (l : loc) (a : array)
    (e : exn) (k : unit → M A) (h : heap) :
  h !! l = Some a → f a = Raise e →
  Q (Raise e, h) → Q ((update f l ≫= k) h).
Proof.
  intros E Ef HQ. unfold update, load, store, lift, mbind, M_bind.
  by rewrite (lookup_total_correct _ _ _ E), Ef.
Qed.

(** A call of a model inside another one. *)
Lemma step_implements (h0 : heap) (c : M loc) (p : result array)
    (k : loc → M A) (h : heap) :
  implements h0 c p → h0 ⊆ h →
  (∀ t h' v, h ⊆ h' → h !! t = None → h' !! t = Some v → p = Ok v →
             Q (k t h')) →
  (∀ e h', h ⊆ h' → p = Raise e → Q (Raise e, h')) →
  Q ((c ≫= k) h).
Proof.
  intros Hc Hsub Hok Herr. destruct (Hc h Hsub) as [Hgrow Hres].
  unfold mbind, M_bind. destruct (c h) as [[t|e] h']; simpl in *.
  - destruct Hres as (Hnew & v & Hv & ->). by eapply Hok.
  - by apply Herr.
Qed.

End Steps.

Lemma final_step {A} (Q : result A * Store.heap → Prop)
    (c : Store.M A) (h : Store.heap) :
  Q ((c ≫= mret) h) → Q (c h).
Proof.
  unfold mbind, Store.M_bind, mret, Store.M_ret.
  by destruct (c h) as [[a|e] h'].
Qed.

Lemma dataset_values_Some (h0 : Store.heap) (dataset : gmap string Store.loc)
    key l :
  allocated h0 dataset → dataset !! key = Some l →
  ∃ a, h0 !! l = Some a ∧ dataset_values h0 dataset !! key = Some a.
Proof.
  intros Hwf E. destruct (Hwf _ _ E) as [a Ha]. exists a. split; [done|].
  unfold dataset_values. rewrite lookup_fmap, E. simpl.
  by rewrite (lookup_total_correct _ _ _ Ha).
Qed.

Lemma dataset_values_None (h0 : Store.heap) (dataset : gmap string Store.loc)
    key :
  dataset !! key = None → dataset_values h0 dataset !! key = None.
Proof. intros E. unfold dataset_values. by rewrite lookup_fmap, E. Qed.

(** Looks a key up in the dataset of references and in its values at once. *)
Ltac lookup_key dataset key l a :=
  let E := fresh "E" in
  let Ha := fresh "Ha" in
  let Hv := fresh "Hv" in
  destruct (dataset !! key) as [l|] eqn:E;
  [ match goal with
    | Hwf : allocated ?h0 dataset, Hsub : ?h0 ⊆ ?h |- _ =>
        destruct (dataset_values_Some h0 dataset key l Hwf E) as (a & Ha & Hv);
        apply (lookup_weaken _ _ _ _ Ha) in Hsub as ?;
        rewrite ?(getitem_Some _ _ _ Hv); cbn [mbind result_bind];
        apply (step_getitem_Some _ _ _ l); [exact E|]
    end
  | match goal with
    | |- context [dataset_values ?h0 dataset] =>
        rewrite ?(getitem_None _ _ (dataset_values_None h0 _ _ E));
        cbn [mbind result_bind];
        apply step_getitem_None; [exact E|]
    end ].

(** Brings the facts on a new location down to the heap of the call. *)
Ltac new_loc t :=
  let Ht := fresh "Hnew" in
  intros t Ht; repeat (apply lookup_insert_None in Ht as [Ht ?]).

Ltac heap_grows :=
  cbn [fst snd];
  repeat (apply insert_subseteq_r;
          [first [assumption | eapply lookup_weaken_None; eassumption]|]);
  first [reflexivity | assumption | etrans; eassumption].

Ltac heap_lookup :=
  cbn [fst snd];
  repeat first
    [ rewrite lookup_insert_eq
    | rewrite lookup_insert_ne by (first [done | congruence | intros ->; congruence]) ];
  first [reflexivity | eassumption | eapply lookup_weaken; eassumption].

(** A key missing from the dataset: both sides raise [KeyError]. *)
Ltac raised :=
  unfold fresh_post; cbn [fst snd];
  split; [heap_grows | first [reflexivity | done]].

(** The call returns the new array [t]. *)
Ltac returned :=
  unfold fresh_post; cbn [fst snd mret Store.M_ret];
  split; [heap_grows|];
  split; [first [assumption | eapply lookup_weaken_None; eassumption]|];
  eexists; split; [heap_lookup|first [reflexivity | done]].

Section Implements.

Variable beta_pdf : Qc → Qc → Qc → Qc → Qc.
Variable normal_pdf : Qc → Qc → Qc → Qc → Qc → Qc.
Variable skew_normal_pdf : Qc → Qc → Qc → Qc → Qc → Qc → Qc.
Variable kernel_2d : Qc → Qc → Qc → Qc → Qc → Qc → Qc → Qc.
Variable skew_kernel_2d : Qc → Qc → Qc → Qc → Qc → Qc → Qc → Qc → Qc → Qc.

Variable h0 : Store.heap.
Variable dataset : gmap string Store.loc.
Hypothesis Hwf : allocated h0 dataset.

Lemma gaussian_chi_eff_implements (mu_chi_eff sigma_chi_eff : Qc) :
  implements h0
    (Store.gaussian_chi_eff normal_pdf dataset mu_chi_eff sigma_chi_eff)
    (gaussian_chi_eff normal_pdf (dataset_values h0 dataset)
       mu_chi_eff sigma_chi_eff).
Proof.
  intros h Hsub. unfold Store.gaussian_chi_eff, gaussian_chi_eff.
  lookup_key dataset "chi_eff" l a; [|raised].
  apply final_step. eapply step_call1; [heap_lookup|]. new_loc t.
  returned.
Qed.


Lemma gaussian_chi_p_implements (mu_chi_p sigma_chi_p : Qc) :
  implements h0
    (Store.gaussian_chi_p normal_pdf dataset mu_chi_p sigma_chi_p)
    (gaussian_chi_p normal_pdf (dataset_values h0 dataset)
       mu_chi_p sigma_chi_p).
Proof.
  intros h Hsub. unfold Store.gaussian_chi_p, gaussian_chi_p.
  lookup_key dataset "chi_p" l a; [|raised].
  apply final_step. eapply step_call1; [heap_lookup|]. new_loc t.
  returned.
Qed.

Lemma skew_gaussian_chi_eff_implements
    (mu_chi_eff sigma_chi_eff skew_chi_eff : Qc) :
  implements h0
    (Store.skew_gaussian_chi_eff skew_normal_pdf dataset
       mu_chi_eff sigma_chi_eff skew_chi_eff)
    (skew_gaussian_chi_eff skew_normal_pdf (dataset_values h0 dataset)
       mu_chi_eff sigma_chi_eff skew_chi_eff).
Proof.
  intros h Hsub. unfold Store.skew_gaussian_chi_eff, skew_gaussian_chi_eff.
  lookup_key dataset "chi_eff" l a; [|raised].
  apply final_step. eapply step_call1; [heap_lookup|]. new_loc t.
  returned.
Qed.

Lemma skew_gaussian_chi_p_implements (mu_chi_p sigma_chi_p skew_chi_p : Qc) :
  implements h0
    (Store.skew_gaussian_chi_p skew_normal_pdf dataset
       mu_chi_p sigma_chi_p skew_chi_p)
    (skew_gaussian_chi_p skew_normal_pdf (dataset_values h0 dataset)
       mu_chi_p sigma_chi_p skew_chi_p).
Proof.
  intros h Hsub. unfold Store.skew_gaussian_chi_p, skew_gaussian_chi_p.
  lookup_key dataset "chi_p" l a; [|raised].
  apply final_step. eapply step_call1; [heap_lookup|]. new_loc t.
  returned.
Qed.

Lemma independent_spin_magnitude_beta_implements
    (alpha_chi_1 alpha_chi_2 beta_chi_1 beta_chi_2 amax_1 amax_2 : Qc) :
  implements h0
    (Store.independent_spin_magnitude_beta beta_pdf dataset
       alpha_chi_1 alpha_chi_2 beta_chi_1 beta_chi_2 amax_1 amax_2)
    (independent_spin_magnitude_beta beta_pdf (dataset_values h0 dataset)
       alpha_chi_1 alpha_chi_2 beta_chi_1 beta_chi_2 amax_1 amax_2).
Proof.
  intros h Hsub.
  unfold Store.independent_spin_magnitude_beta,
    independent_spin_magnitude_beta.
  lookup_key dataset "a_1" l1 a1; [|raised].
  eapply step_call1; [heap_lookup|]. new_loc t1.
  lookup_key dataset "a_2" l2 a2; [|raised].
  eapply step_call1; [heap_lookup|]. new_loc t2.
  apply final_step.
  destruct (broadcast Qcmult (beta_dist beta_pdf a1 _ _ _)
              (beta_dist beta_pdf a2 _ _ _)) as [c|e] eqn:Eb.
  - eapply step_call2_Ok; [heap_lookup | heap_lookup | exact Eb |].
    new_loc t3. returned.
  - eapply step_call2_Raise; [heap_lookup | heap_lookup | exact Eb |].
    raised.
Qed.

Lemma independent_orientation_implements (xi_spin sigma_1 sigma_2 : Qc) :
  implements h0
    (Store.independent_spin_orientation_gaussian_isotropic normal_pdf dataset
       xi_spin sigma_1 sigma_2)
    (independent_spin_orientation_gaussian_isotropic normal_pdf
       (dataset_values h0 dataset) xi_spin sigma_1 sigma_2).
Proof.
  intros h Hsub.
  unfold Store.independent_spin_orientation_gaussian_isotropic,
    independent_spin_orientation_gaussian_isotropic.
  cbv zeta.
  lookup_key dataset "cos_tilt_1" l1 a1; [|raised].
  eapply step_call1; [heap_lookup|]. new_loc n1.
  eapply step_call1; [heap_lookup|]. new_loc t1.
  lookup_key dataset "cos_tilt_2" l2 a2; [|raised].
  eapply step_call1; [heap_lookup|]. new_loc n2.
  destruct (broadcast Qcmult (Qcmult xi_spin <$> truncnorm normal_pdf a1 _ _ _ _)
              (truncnorm normal_pdf a2 _ _ _ _)) as [c|e] eqn:Eb.
  - eapply step_call2_Ok; [heap_lookup | heap_lookup | exact Eb |].
    new_loc t. cbn [mbind result_bind].
    apply final_step. eapply step_call1; [heap_lookup|]. new_loc r.
    returned.
  - eapply step_call2_Raise; [heap_lookup | heap_lookup | exact Eb |].
    raised.
Qed.

Lemma iid_spin_implements (xi_spin sigma_spin amax alpha_chi beta_chi : Qc) :
  implements h0
    (Store.iid_spin beta_pdf normal_pdf dataset
       xi_spin sigma_spin amax alpha_chi beta_chi)
    (iid_spin beta_pdf normal_pdf (dataset_values h0 dataset)
       xi_spin sigma_spin amax alpha_chi beta_chi).
Proof.
  intros h Hsub. unfold Store.iid_spin, iid_spin.
  unfold Store.iid_spin_orientation_gaussian_isotropic,
    iid_spin_orientation_gaussian_isotropic,
    Store.iid_spin_magnitude_beta, iid_spin_magnitude_beta.
  eapply step_implements;
    [apply independent_orientation_implements | exact Hsub | |].
  - intros o h1 vo Hsub1 Ho Hvo ->. cbn [mbind result_bind].
    eapply step_implements;
      [apply independent_spin_magnitude_beta_implements
      | by etrans | |].
    + intros m h2 vm Hsub2 Hm Hvm ->. cbn [mbind result_bind].
      assert (h ⊆ h2) by (by etrans).
      apply final_step.
      destruct (broadcast Qcmult vo vm) as [c|e] eqn:Eb.
      * eapply step_call2_Ok; [heap_lookup | heap_lookup | exact Eb |].
        new_loc t. returned.
      * eapply step_call2_Raise; [heap_lookup | heap_lookup | exact Eb |].
        raised.
    + intros e h2 Hsub2 ->. assert (h ⊆ h2) by (by etrans). raised.
  - intros e h1 Hsub1 ->. raised.
Qed.


Lemma normalise_and_mask_post (h hcur : Store.heap) (t l1 l2 : Store.loc)
    (vp a1 a2 : array) (normalization : Qc) :
  dataset !! "chi_eff" = Some l1 →
  dataset !! "chi_p" = Some l2 →
  h !! l1 = Some a1 →
  h !! l2 = Some a2 →
  h ⊆ hcur →
  h !! t = None →
  hcur !! t = Some vp →
  fresh_post h
    (imul_mask ((λ v, v / normalization) <$> vp) (chi_eff_mask a1)
     ≫= λ prob, chi_p_mask a2 a2 ≫= λ mask, imul_mask prob mask)
    (Store.normalise_and_mask dataset t normalization hcur).
Proof.
  intros E1 E2 H1 H2 Hsub Ht Hvp. unfold Store.normalise_and_mask.
  eapply step_update_Ok; [heap_lookup | reflexivity |].
  apply (step_getitem_Some _ _ _ l1); [exact E1|].
  eapply step_load; [heap_lookup|].
  destruct (imul_mask ((λ v, v / normalization) <$> vp) (chi_eff_mask a1))
    as [c1|e] eqn:Em1.
  - eapply step_update_Ok; [heap_lookup | exact Em1 |].
    cbn [mbind result_bind].
    apply (step_getitem_Some _ _ _ l2); [exact E2|].
    eapply step_load; [heap_lookup|].
    apply (step_getitem_Some _ _ _ l2); [exact E2|].
    eapply step_load; [heap_lookup|].
    destruct (chi_p_mask a2 a2) as [mask|e] eqn:Em.
    + apply step_lift_Ok. cbn [mbind result_bind].
      destruct (imul_mask c1 mask) as [c2|e] eqn:Em2.
      * eapply step_update_Ok; [heap_lookup | exact Em2 |]. returned.
      * eapply step_update_Raise; [heap_lookup | exact Em2 |]. raised.
    + apply step_lift_Raise. raised.
  - eapply step_update_Raise; [heap_lookup | exact Em1 |]. raised.
Qed.

Lemma gaussian_chi_p_chi_eff_implements
    (mu_chi_eff sigma_chi_eff mu_chi_p sigma_chi_p rho : Qc) :
  implements h0
    (Store.gaussian_chi_p_chi_eff normal_pdf kernel_2d dataset
       mu_chi_eff sigma_chi_eff mu_chi_p sigma_chi_p rho)
    (gaussian_chi_p_chi_eff normal_pdf kernel_2d (dataset_values h0 dataset)
       mu_chi_eff sigma_chi_eff mu_chi_p sigma_chi_p rho).
Proof.
  intros h Hsub. unfold Store.gaussian_chi_p_chi_eff, gaussian_chi_p_chi_eff.
  destruct (decide (rho = 0)) as [_|_].
  - eapply step_implements;
      [apply gaussian_chi_eff_implements | exact Hsub | |].
    + intros p h1 vp Hsub1 Hp Hvp ->. cbn [mbind result_bind].
      eapply step_implements;
        [apply gaussian_chi_p_implements | by etrans | |].
      * intros o h2 vo Hsub2 Ho Hvo ->. cbn [mbind result_bind].
        assert (h ⊆ h2) by (by etrans).
        eapply step_load; [heap_lookup|].
        destruct (inplace Qcmult vp vo) as [c|e] eqn:Ei.
        -- eapply step_update_Ok; [heap_lookup | exact Ei |]. returned.
        -- eapply step_update_Raise; [heap_lookup | exact Ei |]. raised.
      * intros e h2 Hsub2 ->. assert (h ⊆ h2) by (by etrans). raised.
    + intros e h1 Hsub1 ->. raised.
  - lookup_key dataset "chi_eff" l1 a1; [|raised].
    lookup_key dataset "chi_p" l2 a2; [|raised].
    generalize (_normalization kernel_2d mu_chi_eff sigma_chi_eff mu_chi_p
                  sigma_chi_p rho).
    intros rn.
    destruct (unnormalized_2d_gaussian kernel_2d a1 a2 _ _ _ _ _)
      as [vp|e] eqn:Ek.
    + eapply step_call2_Ok; [heap_lookup | heap_lookup | exact Ek |].
      new_loc t. cbn [mbind result_bind]. cbv beta.
      destruct rn as [n|e].
      * apply step_lift_Ok. cbn [mbind result_bind].
        eapply normalise_and_mask_post; try eassumption;
          [heap_grows | heap_lookup].
      * apply step_lift_Raise. raised.
    + eapply step_call2_Raise; [heap_lookup | heap_lookup | exact Ek |].
      raised.
Qed.

Lemma gaussian_chi_p_chi_eff_skew_implements
    (mu_chi_eff sigma_chi_eff mu_chi_p sigma_chi_p skew_chi_eff skew_chi_p
     rho : Qc) :
  implements h0
    (Store.gaussian_chi_p_chi_eff_skew skew_normal_pdf skew_kernel_2d dataset
       mu_chi_eff sigma_chi_eff mu_chi_p sigma_chi_p
       skew_chi_eff skew_chi_p rho)
    (gaussian_chi_p_chi_eff_skew skew_normal_pdf skew_kernel_2d
       (dataset_values h0 dataset)
       mu_chi_eff sigma_chi_eff mu_chi_p sigma_chi_p
       skew_chi_eff skew_chi_p rho).
Proof.
  intros h Hsub.
  unfold Store.gaussian_chi_p_chi_eff_skew, gaussian_chi_p_chi_eff_skew.
  destruct (decide (rho = 0)) as [_|_].
  - eapply step_implements;
      [apply skew_gaussian_chi_eff_implements | exact Hsub | |].
    + intros p h1 vp Hsub1 Hp Hvp ->. cbn [mbind result_bind].
      eapply step_implements;
        [apply skew_gaussian_chi_p_implements | by etrans | |].
      * intros o h2 vo Hsub2 Ho Hvo ->. cbn [mbind result_bind].
        assert (h ⊆ h2) by (by etrans).
        eapply step_load; [heap_lookup|].
        destruct (inplace Qcmult vp vo) as [c|e] eqn:Ei.
        -- eapply step_update_Ok; [heap_lookup | exact Ei |]. returned.
        -- eapply step_update_Raise; [heap_lookup | exact Ei |]. raised.
      * intros e h2 Hsub2 ->. assert (h ⊆ h2) by (by etrans). raised.
    + intros e h1 Hsub1 ->. raised.
  - lookup_key dataset "chi_eff" l1 a1; [|raised].
    lookup_key dataset "chi_p" l2 a2; [|raised].
    generalize (_normalization_skew skew_kernel_2d mu_chi_eff sigma_chi_eff
                  mu_chi_p sigma_chi_p skew_chi_eff skew_chi_p rho).
    intros rn.
    destruct (unnormalized_2d_skew_gaussian skew_kernel_2d a1 a2 _ _ _ _ _ _ _)
      as [vp|e] eqn:Ek.
    + eapply step_call2_Ok; [heap_lookup | heap_lookup | exact Ek |].
      new_loc t. cbn [mbind result_bind]. cbv beta.
      destruct rn as [n|e].
      * apply step_lift_Ok. cbn [mbind result_bind].
        eapply normalise_and_mask_post; try eassumption;
          [heap_grows | heap_lookup].
      * apply step_lift_Raise. raised.
    + eapply step_call2_Raise; [heap_lookup | heap_lookup | exact Ek |].
      raised.
Qed.


Lemma call_implements (m : model) :
  implements h0
    (call beta_pdf normal_pdf skew_normal_pdf kernel_2d skew_kernel_2d
       m dataset)
    (eval beta_pdf normal_pdf skew_normal_pdf kernel_2d skew_kernel_2d
       m (dataset_values h0 dataset)).
Proof.
  destruct m; cbn [call eval].
  - apply iid_spin_implements.
  - apply independent_spin_magnitude_beta_implements.
  - apply independent_spin_magnitude_beta_implements.
  - apply independent_orientation_implements.
  - apply independent_orientation_implements.
  - apply gaussian_chi_eff_implements.
  - apply gaussian_chi_p_implements.
  - apply gaussian_chi_p_chi_eff_implements.
  - apply skew_gaussian_chi_eff_implements.
  - apply skew_gaussian_chi_p_implements.
  - apply gaussian_chi_p_chi_eff_skew_implements.
Qed.

End Implements.

Lemma fresh_post_outcome (h : Store.heap) (p : result array)
    (rh : result Store.loc * Store.heap) :
  fresh_post h p rh → outcome rh = p.
Proof.
  intros [_ Hres]. unfold outcome. destruct (rh.1) as [t|e]; [|done].
  destruct Hres as (_ & v & Hv & ->). by rewrite (lookup_total_correct _ _ _ Hv).
Qed.

Lemma dataset_values_grow (h h' : Store.heap)
    (dataset : gmap string Store.loc) :
  allocated h dataset → h ⊆ h' →
  dataset_values h' dataset = dataset_values h dataset.
Proof.
  intros Hwf Hsub. unfold dataset_values. apply map_eq. intros key.
  rewrite !lookup_fmap. destruct (dataset !! key) as [l|] eqn:E; [|done].
  destruct (Hwf _ _ E) as [a Ha]. simpl.
  by rewrite (lookup_total_correct _ _ _ Ha),
       (lookup_total_correct _ _ _ (lookup_weaken _ _ _ _ Ha Hsub)).
Qed.

Section Purity.

Variable beta_pdf : Qc → Qc → Qc → Qc → Qc.
Variable normal_pdf : Qc → Qc → Qc → Qc → Qc → Qc.
Variable skew_normal_pdf : Qc → Qc → Qc → Qc → Qc → Qc → Qc.
Variable kernel_2d : Qc → Qc → Qc → Qc → Qc → Qc → Qc → Qc.
Variable skew_kernel_2d : Qc → Qc → Qc → Qc → Qc → Qc → Qc → Qc → Qc → Qc.

Local Abbreviation call' :=
  (call beta_pdf normal_pdf skew_normal_pdf kernel_2d skew_kernel_2d).
Local Abbreviation eval' :=
  (eval beta_pdf normal_pdf skew_normal_pdf kernel_2d skew_kernel_2d).

(** C9: a call of any of the density functions, made through a dataset of
    references into a heap, leaves every array of that heap as it was, the
    arrays of the dataset among them; what it returns is a function of the
    values of the dataset and of the hyperparameters only; and the same call
    made after any other call returns the same. *)
Theorem models_do_not_touch_the_dataset (m m' : model)
    (dataset : gmap string Store.loc) (h : Store.heap) :
  allocated h dataset →
  let after := call' m dataset h in
  (∀ l a, h !! l = Some a → after.2 !! l = Some a)
  ∧ dataset_values after.2 dataset = dataset_values h dataset
  ∧ outcome after = eval' m (dataset_values h dataset)
  ∧ outcome (call' m dataset (call' m' dataset h).2) = outcome after.
Proof.
  intros Hwf after.
  pose proof (call_implements beta_pdf normal_pdf skew_normal_pdf kernel_2d
                skew_kernel_2d h dataset Hwf) as Himpl.
  assert (fresh_post h (eval' m (dataset_values h dataset)) after) as Hafter
    by (by apply Himpl).
  assert (h ⊆ (call' m' dataset h).2) as Hother by (by apply Himpl).
  split; [|split; [|split]].
  - intros l a Ha. by apply (lookup_weaken _ _ _ _ Ha), Hafter.
  - apply dataset_values_grow; [done|]. apply Hafter.
  - by apply fresh_post_outcome in Hafter.
  - rewrite (fresh_post_outcome _ _ _ Hafter).
    eapply fresh_post_outcome. by apply Himpl.
Qed.

End Purity.

(** ** The claims at the example inputs *)

(** C5 does not hold as first stated: with [xi_spin = 0] the density of the
    aligned pair is 1/4, not 1/16. *)
Lemma isotropic_value_is_not_a_sixteenth :
  independent_spin_orientation_gaussian_isotropic flat_normal aligned_dataset
    0 (qc 1 2) (qc 1 2) = Ok [qc 1 4]
  ∧ independent_spin_orientation_gaussian_isotropic flat_normal aligned_dataset
      0 (qc 1 2) (qc 1 2) ≠ Ok [qc 1 16].
Proof.
  assert (independent_spin_orientation_gaussian_isotropic flat_normal
            aligned_dataset 0 (qc 1 2) (qc 1 2) = Ok [qc 1 4]) as E.
  { rewrite (independent_orientation_pointwise _ _ [1] [1]) by done.
    cbn [zip_with].
    by replace (tilt_mixture flat_normal 0 (qc 1 2) (qc 1 2) 1 1)
      with (qc 1 4) by qc_compute. }
  split; [exact E|]. rewrite E. intros H. discriminate H.
Qed.

Lemma iid_magnitude_specialises_independent_witness :
  (two_samples !! "a_1" = Some [qc 1 2; qc 1 4]
   ∧ two_samples !! "a_2" = Some [qc 3 10; qc 1 5]
   ∧ length [qc 1 2; qc 1 4] = length [qc 3 10; qc 1 5])
  ∧ iid_spin_magnitude_beta flat_beta two_samples 1 (qc 2 1) (qc 2 1)
    = Ok (zip_with (λ x y, flat_beta x (qc 2 1) (qc 2 1) 1
                           * flat_beta y (qc 2 1) (qc 2 1) 1)
            [qc 1 2; qc 1 4] [qc 3 10; qc 1 5]).
Proof.
  split; [done|].
  apply (iid_magnitude_specialises_independent
           flat_beta two_samples 1 (qc 2 1) (qc 2 1)); reflexivity.
Defined.

Lemma tilt_mixture_endpoints_witness :
  (two_samples !! "cos_tilt_1" = Some [1; qc (-1) 2]
   ∧ two_samples !! "cos_tilt_2" = Some [qc 1 2; 0]
   ∧ length [1; qc (-1) 2] = length [qc 1 2; 0])
  ∧ independent_spin_orientation_gaussian_isotropic flat_normal two_samples
      0 (qc 1 2) (qc 1 3)
    = Ok (zip_with (λ _ _, qc 1 4) [1; qc (-1) 2] [qc 1 2; 0]).
Proof.
  split; [done|].
  apply (tilt_mixture_endpoints flat_normal two_samples
           [1; qc (-1) 2] [qc 1 2; 0] (qc 1 2) (qc 1 3)); reflexivity.
Defined.

Lemma normalised_by_grid_quadrature_witness :
  (qc 1 2 ≠ 0
   ∧ two_samples !! "chi_eff" = Some [-1; qc 3 2]
   ∧ two_samples !! "chi_p" = Some [1; qc 1 2]
   ∧ length [-1; qc 3 2] = length [1; qc 1 2])
  ∧ _normalization bump_kernel 0 (qc 1 5) (qc 1 5) (qc 1 5) (qc 1 2)
    = Ok (grid_quadrature
            (λ x y, bump_kernel x y 0 (qc 1 5) (qc 1 5) (qc 1 5) (qc 1 2))).
Proof.
  assert (qc 1 2 ≠ 0) as Hrho by done.
  assert (two_samples !! "chi_eff" = Some [-1; qc 3 2]) as H1 by reflexivity.
  assert (two_samples !! "chi_p" = Some [1; qc 1 2]) as H2 by reflexivity.
  assert (length [-1; qc 3 2] = length [1; qc 1 2]) as Hlen by reflexivity.
  split; [by repeat split|].
  pose proof (normalised_by_grid_quadrature flat_normal flat_skew_normal
                bump_kernel bump_skew_kernel two_samples
                [-1; qc 3 2] [1; qc 1 2]
                0 (qc 1 5) (qc 1 5) (qc 1 5) 1 (-1) (qc 1 2)
                Hrho H1 H2 Hlen) as H.
  cbv zeta in H. destruct H as (_ & _ & Hn & _). exact Hn.
Defined.

Lemma boundary_of_support_kept_witness :
  (qc 1 2 ≠ 0
   ∧ two_samples !! "chi_eff" = Some [-1; qc 3 2]
   ∧ two_samples !! "chi_p" = Some [1; qc 1 2]
   ∧ length [-1; qc 3 2] = length [1; qc 1 2])
  ∧ chi_eff_mask [-1; 1] = [true; true]
  ∧ chi_p_mask [0; 1] [0; 1] = Ok [true; true].
Proof.
  assert (qc 1 2 ≠ 0) as Hrho by done.
  assert (two_samples !! "chi_eff" = Some [-1; qc 3 2]) as H1 by reflexivity.
  assert (two_samples !! "chi_p" = Some [1; qc 1 2]) as H2 by reflexivity.
  assert (length [-1; qc 3 2] = length [1; qc 1 2]) as Hlen by reflexivity.
  split; [by repeat split|].
  pose proof (boundary_of_support_kept flat_normal flat_skew_normal
                bump_kernel bump_skew_kernel two_samples
                [-1; qc 3 2] [1; qc 1 2]
                0 (qc 1 5) (qc 1 5) (qc 1 5) 1 (-1) (qc 1 2)
                Hrho H1 H2 Hlen) as H.
  cbv zeta in H. destruct H as (Ha & Hb & _). split; [exact Ha | exact Hb].
Defined.

Lemma models_do_not_touch_the_dataset_witness :
  allocated example_heap example_dataset
  ∧ outcome (call flat_beta flat_normal flat_skew_normal bump_kernel
               bump_skew_kernel
               (Gaussian_chi_p_chi_eff 0 (qc 1 5) (qc 1 5) (qc 1 5) (qc 1 2))
               example_dataset example_heap)
    = eval flat_beta flat_normal flat_skew_normal bump_kernel bump_skew_kernel
        (Gaussian_chi_p_chi_eff 0 (qc 1 5) (qc 1 5) (qc 1 5) (qc 1 2))
        (dataset_values example_heap example_dataset).
Proof.
  assert (allocated example_heap example_dataset) as Hwf.
  { apply (bool_decide_unpack _). vm_compute. exact I. }
  split; [exact Hwf|].
  pose proof (models_do_not_touch_the_dataset flat_beta flat_normal
                flat_skew_normal bump_kernel bump_skew_kernel
                (Gaussian_chi_p_chi_eff 0 (qc 1 5) (qc 1 5) (qc 1 5) (qc 1 2))
                (Iid_spin 0 1 1 1 1) example_dataset example_heap Hwf) as H.
  cbv zeta in H. destruct H as (_ & _ & Ho & _). exact Ho.
Defined.

(** * Further properties of the models *)

(** ** Shapes and lengths *)

Lemma broadcast_length {A B C} (f : A → B → C) a b c (n : nat) :
  length a = n → length b = n → broadcast f a b = Ok c → length c = n.
Proof.
  intros Ha Hb. rewrite broadcast_same by congruence.
  intros [= <-]. rewrite length_zip_with. lia.
Qed.

Section Lengths.

Variable beta_pdf : Qc → Qc → Qc → Qc → Qc.
Variable normal_pdf : Qc → Qc → Qc → Qc → Qc → Qc.
Variable skew_normal_pdf : Qc → Qc → Qc → Qc → Qc → Qc → Qc.
Variable kernel_2d : Qc → Qc → Qc → Qc → Qc → Qc → Qc → Qc.
Variable skew_kernel_2d : Qc → Qc → Qc → Qc → Qc → Qc → Qc → Qc → Qc → Qc.

Local Abbreviation eval' :=
  (eval beta_pdf normal_pdf skew_normal_pdf kernel_2d skew_kernel_2d).

(** [iid_spin] multiplies, sample by sample, the tilt mixture of the two
    cosine tilts and the two beta densities of the magnitudes. *)
Theorem iid_spin_pointwise (dataset : gmap string array)
    (z1 z2 a_1 a_2 : array) (xi_spin sigma_spin amax alpha_chi beta_chi : Qc) :
  dataset !! "cos_tilt_1" = Some z1 →
  dataset !! "cos_tilt_2" = Some z2 →
  dataset !! "a_1" = Some a_1 →
  dataset !! "a_2" = Some a_2 →
  length z1 = length z2 →
  length a_1 = length z1 →
  length a_2 = length z1 →
  iid_spin beta_pdf normal_pdf dataset xi_spin sigma_spin amax alpha_chi beta_chi
  = Ok (zip_with Qcmult
          (zip_with (tilt_mixture normal_pdf xi_spin sigma_spin sigma_spin)
             z1 z2)
          (zip_with (λ x y, beta_pdf x alpha_chi beta_chi amax
                            * beta_pdf y alpha_chi beta_chi amax) a_1 a_2)).
Proof.
  intros Hz1 Hz2 Ha1 Ha2 Lz L1 L2.
  unfold iid_spin, iid_spin_orientation_gaussian_isotropic,
    iid_spin_magnitude_beta.
  rewrite (independent_orientation_pointwise _ _ z1 z2) by done.
  rewrite (independent_spin_magnitude_beta_pointwise _ _ a_1 a_2)
    by congruence.
  cbn [mbind result_bind]. apply broadcast_same.
  rewrite !length_zip_with. lia.
Qed.

(** When a call returns on a dataset that holds, under every key the call
    reads, an array of one length [n], the array returned has length [n]. *)
Theorem eval_length (m : model) (dataset : gmap string array) (n : nat)
    (out : array) :
  (∀ key, key ∈ keys m →
     ∃ a : array, dataset !! key = Some a ∧ length a = n) →
  eval' m dataset = Ok out →
  length out = n.
Proof.
  intros Hk.
  destruct m; cbn [keys eval] in *.
  - destruct (Hk "cos_tilt_1") as (z1 & Hz1 & L1); [set_solver|].
    destruct (Hk "cos_tilt_2") as (z2 & Hz2 & L2); [set_solver|].
    destruct (Hk "a_1") as (a1 & Ha1 & L3); [set_solver|].
    destruct (Hk "a_2") as (a2 & Ha2 & L4); [set_solver|].
    rewrite (iid_spin_pointwise _ z1 z2 a1 a2) by congruence.
    intros [= <-]. rewrite !length_zip_with. lia.
  - destruct (Hk "a_1") as (a1 & Ha1 & L3); [set_solver|].
    destruct (Hk "a_2") as (a2 & Ha2 & L4); [set_solver|].
    unfold iid_spin_magnitude_beta.
    rewrite (independent_spin_magnitude_beta_pointwise _ _ a1 a2) by congruence.
    intros [= <-]. rewrite !length_zip_with. lia.
  - destruct (Hk "a_1") as (a1 & Ha1 & L3); [set_solver|].
    destruct (Hk "a_2") as (a2 & Ha2 & L4); [set_solver|].
    rewrite (independent_spin_magnitude_beta_pointwise _ _ a1 a2) by congruence.
    intros [= <-]. rewrite !length_zip_with. lia.
  - destruct (Hk "cos_tilt_1") as (z1 & Hz1 & L1); [set_solver|].
    destruct (Hk "cos_tilt_2") as (z2 & Hz2 & L2); [set_solver|].
    unfold iid_spin_orientation_gaussian_isotropic.
    rewrite (independent_orientation_pointwise _ _ z1 z2) by congruence.
    intros [= <-]. rewrite !length_zip_with. lia.
  - destruct (Hk "cos_tilt_1") as (z1 & Hz1 & L1); [set_solver|].
    destruct (Hk "cos_tilt_2") as (z2 & Hz2 & L2); [set_solver|].
    rewrite (independent_orientation_pointwise _ _ z1 z2) by congruence.
    intros [= <-]. rewrite !length_zip_with. lia.
  - destruct (Hk "chi_eff") as (xs & Hxs & L1); [set_solver|].
    unfold gaussian_chi_eff. rewrite (getitem_Some _ _ _ Hxs).
    intros [= <-]. unfold truncnorm. by rewrite length_fmap.
  - destruct (Hk "chi_p") as (ys & Hys & L1); [set_solver|].
    unfold gaussian_chi_p. rewrite (getitem_Some _ _ _ Hys).
    intros [= <-]. unfold truncnorm. by rewrite length_fmap.
  - destruct (Hk "chi_eff") as (xs & Hxs & L1); [set_solver|].
    destruct (Hk "chi_p") as (ys & Hys & L2); [set_solver|].
    destruct (decide (rho = 0)) as [->|Hrho].
    + rewrite (gaussian_fast_path _ _ _ xs ys) by congruence.
      intros [= <-]. rewrite !length_zip_with. lia.
    + rewrite (gaussian_general_path _ _ _ xs ys) by congruence.
      intros [= <-]. rewrite !length_zip_with. lia.
  - destruct (Hk "chi_eff") as (xs & Hxs & L1); [set_solver|].
    unfold skew_gaussian_chi_eff. rewrite (getitem_Some _ _ _ Hxs).
    intros [= <-]. unfold truncskewnorm. by rewrite length_fmap.
  - destruct (Hk "chi_p") as (ys & Hys & L1); [set_solver|].
    unfold skew_gaussian_chi_p. rewrite (getitem_Some _ _ _ Hys).
    intros [= <-]. unfold truncskewnorm. by rewrite length_fmap.
  - destruct (Hk "chi_eff") as (xs & Hxs & L1); [set_solver|].
    destruct (Hk "chi_p") as (ys & Hys & L2); [set_solver|].
    destruct (decide (rho = 0)) as [->|Hrho].
    + rewrite (skew_fast_path _ _ _ xs ys) by congruence.
      intros [= <-]. rewrite !length_zip_with. lia.
    + rewrite (skew_general_path _ _ _ xs ys) by congruence.
      intros [= <-]. rewrite !length_zip_with. lia.
Qed.

End Lengths.

(** ** Exceptions *)

Lemma broadcast_Raise {A B C} (f : A → B → C) a b e :
  broadcast f a b = Raise e → e = ValueError.
Proof.
  unfold broadcast. destruct (decide _); [done|].
  destruct a as [|x [|??]], b as [|y [|??]]; simpl; congruence.
Qed.

Lemma inplace_Raise {A B} (f : A → B → A) prob other e :
  inplace f prob other = Raise e → e = ValueError.
Proof.
  unfold inplace. destruct (decide _); [done|].
  destruct other as [|y [|??]]; simpl; congruence.
Qed.

(** Splits a call into the cases of its look-ups and of its array
    operations, keeping what each returned. *)
Ltac unfold_models :=
  unfold gaussian_chi_p_chi_eff, gaussian_chi_p_chi_eff_skew, iid_spin;
  unfold iid_spin_magnitude_beta, iid_spin_orientation_gaussian_isotropic;
  unfold independent_spin_magnitude_beta,
    independent_spin_orientation_gaussian_isotropic,
    gaussian_chi_eff, gaussian_chi_p, skew_gaussian_chi_eff,
    skew_gaussian_chi_p, unnormalized_2d_gaussian,
    unnormalized_2d_skew_gaussian, imul_mask, chi_p_mask, getitem;
  rewrite ?normalization_quadrature, ?normalization_skew_quadrature.

Ltac case_step :=
  cbn [mbind result_bind];
  match goal with
  | |- context [match ?d !! ?k with _ => _ end] => destruct (d !! k) eqn:?
  | |- context [decide (?r = 0)] => destruct (decide (r = 0))
  | |- context [mbind _ (broadcast ?f ?a ?b)] =>
      let E := fresh "E" in
      destruct (broadcast f a b) eqn:E;
      [|apply broadcast_Raise in E; subst]
  | |- context [mbind _ (inplace ?f ?a ?b)] =>
      let E := fresh "E" in
      destruct (inplace f a b) eqn:E;
      [|apply inplace_Raise in E; subst]
  | |- context [broadcast ?f ?a ?b] =>
      let E := fresh "E" in
      destruct (broadcast f a b) eqn:E;
      [|apply broadcast_Raise in E; subst]
  | |- context [inplace ?f ?a ?b] =>
      let E := fresh "E" in
      destruct (inplace f a b) eqn:E;
      [|apply inplace_Raise in E; subst]
  end.

Ltac cases_of_call := unfold_models; repeat case_step; cbn [mbind result_bind].

Section Exceptions.

Variable beta_pdf : Qc → Qc → Qc → Qc → Qc.
Variable normal_pdf : Qc → Qc → Qc → Qc → Qc → Qc.
Variable skew_normal_pdf : Qc → Qc → Qc → Qc → Qc → Qc → Qc.
Variable kernel_2d : Qc → Qc → Qc → Qc → Qc → Qc → Qc → Qc.
Variable skew_kernel_2d : Qc → Qc → Qc → Qc → Qc → Qc → Qc → Qc → Qc → Qc.

Local Abbreviation eval' :=
  (eval beta_pdf normal_pdf skew_normal_pdf kernel_2d skew_kernel_2d).

(** A call never returns an array when a key it reads is missing from the
    dataset: it raises. *)
Theorem missing_key_raises (m : model) (dataset : gmap string array) key :
  key ∈ keys m → dataset !! key = None →
  ∃ e, eval' m dataset = Raise e.
Proof.
  intros Hin Hnone.
  destruct m; cbn [keys eval] in *;
    repeat (apply elem_of_cons in Hin as [->|Hin]);
    try (by apply elem_of_nil in Hin);
    cases_of_call; try (eexists; reflexivity); congruence.
Qed.

(** When a call raises [KeyError], the key it names is one the call reads
    and the dataset does not hold. *)
Theorem KeyError_names_a_missing_key (m : model)
    (dataset : gmap string array) key :
  eval' m dataset = Raise (KeyError key) →
  key ∈ keys m ∧ dataset !! key = None.
Proof.
  destruct m; cbn [keys eval]; cases_of_call;
    intros [= <-]; (split; [set_solver | done]).
Qed.

(** When the first key a call reads is missing, the call raises the
    [KeyError] of that key, whatever else the dataset holds or lacks. *)
Theorem first_key_missing (m : model) (dataset : gmap string array) key :
  head (keys m) = Some key → dataset !! key = None →
  eval' m dataset = Raise (KeyError key).
Proof.
  intros Hhead Hnone.
  destruct m; cbn [keys head] in Hhead; injection Hhead as <-;
    cbn [eval]; unfold_models; rewrite Hnone; try reflexivity;
    by destruct (decide _).
Qed.

Lemma broadcast_Ok_shapes {A B C} (f : A → B → C) a b c :
  broadcast f a b = Ok c →
  length a = length b ∨ length a = 1%nat ∨ length b = 1%nat.
Proof.
  unfold broadcast. destruct (decide _); [by left|].
  destruct a as [|x [|??]], b as [|y [|??]]; simpl; intros; try done; lia.
Qed.

Lemma inplace_Ok_shapes {A B} (f : A → B → A) prob other c :
  inplace f prob other = Ok c →
  length prob = length other ∨ length other = 1%nat.
Proof.
  unfold inplace. destruct (decide _); [by left|].
  destruct other as [|y [|??]]; simpl; intros; try done; lia.
Qed.

(** A call that reads two arrays raises [ValueError] when their lengths
    differ and neither holds exactly one sample. *)
Theorem incompatible_shapes_raise (m : model) (dataset : gmap string array)
    key1 key2 (a b : array) :
  keys m = [key1; key2] →
  dataset !! key1 = Some a →
  dataset !! key2 = Some b →
  length a ≠ length b → length a ≠ 1%nat → length b ≠ 1%nat →
  eval' m dataset = Raise ValueError.
Proof.
  intros Hkeys Ha Hb Hne Ha1 Hb1.
  destruct m; cbn [keys] in Hkeys; try discriminate Hkeys;
    injection Hkeys as <- <-; cbn [eval]; cases_of_call;
    simplify_eq; try reflexivity; exfalso;
    repeat match goal with
    | E : broadcast _ _ _ = Ok _ |- _ => apply broadcast_Ok_shapes in E
    | E : inplace _ _ _ = Ok _ |- _ => apply inplace_Ok_shapes in E
    end;
    unfold beta_dist, truncnorm, truncskewnorm in *;
    rewrite ?length_fmap in *; lia.
Qed.

End Exceptions.

(** ** One sample against many *)

Lemma broadcast_singleton_l {A B C} (f : A → B → C) x b :
  broadcast f [x] b = Ok (f x <$> b).
Proof.
  unfold broadcast. destruct (decide _) as [E|E]; [|done].
  by destruct b as [|y [|??]].
Qed.

Lemma broadcast_singleton_r {A B C} (f : A → B → C) a y :
  broadcast f a [y] = Ok ((λ x, f x y) <$> a).
Proof.
  unfold broadcast. destruct (decide _) as [E|E].
  - by destruct a as [|x [|??]].
  - by destruct a as [|x [|??]].
Qed.

Lemma inplace_singleton {A B} (f : A → B → A) prob y :
  inplace f prob [y] = Ok ((λ x, f x y) <$> prob).
Proof.
  unfold inplace. destruct (decide _) as [E|E]; [|done].
  by destruct prob as [|x [|??]].
Qed.

Lemma inplace_cannot_stretch {A B} (f : A → B → A) x other :
  length other ≠ 1%nat → inplace f [x] other = Raise ValueError.
Proof.
  intros H. unfold inplace. destruct (decide _) as [E|E].
  - simpl in E. congruence.
  - by destruct other as [|y [|??]].
Qed.

Section Stretching.

Variable beta_pdf : Qc → Qc → Qc → Qc → Qc.
Variable normal_pdf : Qc → Qc → Qc → Qc → Qc → Qc.
Variable skew_normal_pdf : Qc → Qc → Qc → Qc → Qc → Qc → Qc.
Variable kernel_2d : Qc → Qc → Qc → Qc → Qc → Qc → Qc → Qc.
Variable skew_kernel_2d : Qc → Qc → Qc → Qc → Qc → Qc → Qc → Qc → Qc → Qc.

(** A magnitude or tilt array of one sample for the second component is
    stretched over the samples of the first. *)
Theorem one_second_component_is_stretched (dataset : gmap string array)
    (a_1 z1 : array) (a2 z2 : Qc)
    (alpha_chi_1 alpha_chi_2 beta_chi_1 beta_chi_2 amax_1 amax_2
     xi_spin sigma_1 sigma_2 : Qc) :
  dataset !! "a_1" = Some a_1 →
  dataset !! "a_2" = Some [a2] →
  dataset !! "cos_tilt_1" = Some z1 →
  dataset !! "cos_tilt_2" = Some [z2] →
  independent_spin_magnitude_beta beta_pdf dataset
    alpha_chi_1 alpha_chi_2 beta_chi_1 beta_chi_2 amax_1 amax_2
  = Ok ((λ x, beta_pdf x alpha_chi_1 beta_chi_1 amax_1
              * beta_pdf a2 alpha_chi_2 beta_chi_2 amax_2) <$> a_1)
  ∧ independent_spin_orientation_gaussian_isotropic normal_pdf dataset
      xi_spin sigma_1 sigma_2
    = Ok ((λ z, tilt_mixture normal_pdf xi_spin sigma_1 sigma_2 z z2) <$> z1).
Proof.
  intros Ha1 Ha2 Hz1 Hz2. split.
  - unfold independent_spin_magnitude_beta, beta_dist.
    rewrite (getitem_Some _ _ _ Ha1), (getitem_Some _ _ _ Ha2).
    cbn [mbind result_bind fmap list_fmap].
    rewrite broadcast_singleton_r. f_equal.
    by rewrite <- list_fmap_compose.
  - unfold independent_spin_orientation_gaussian_isotropic, truncnorm.
    rewrite (getitem_Some _ _ _ Hz1), (getitem_Some _ _ _ Hz2).
    cbn [mbind result_bind fmap list_fmap].
    rewrite broadcast_singleton_r. cbn [mbind result_bind]. f_equal.
    by rewrite <- !list_fmap_compose.
Qed.

(** One effective aligned spin against several precessing spins: for
    [rho = 0] the product is stored in the one-sample array and the call
    raises [ValueError]; for [rho ≠ 0] the kernel is evaluated on the
    stretched pair and the call returns one density per precessing spin. *)
Theorem one_chi_eff_against_many (dataset : gmap string array)
    (x : Qc) (ys : array)
    (mu_chi_eff sigma_chi_eff mu_chi_p sigma_chi_p skew_chi_eff skew_chi_p
     rho : Qc) :
  dataset !! "chi_eff" = Some [x] →
  dataset !! "chi_p" = Some ys →
  length ys ≠ 1%nat →
  let kernel x y :=
    kernel_2d x y mu_chi_eff mu_chi_p sigma_chi_eff sigma_chi_p rho in
  let skew_kernel x y :=
    skew_kernel_2d x y mu_chi_eff mu_chi_p sigma_chi_eff sigma_chi_p
      skew_chi_eff skew_chi_p rho in
  gaussian_chi_p_chi_eff normal_pdf kernel_2d dataset
    mu_chi_eff sigma_chi_eff mu_chi_p sigma_chi_p 0 = Raise ValueError
  ∧ gaussian_chi_p_chi_eff_skew skew_normal_pdf skew_kernel_2d dataset
      mu_chi_eff sigma_chi_eff mu_chi_p sigma_chi_p skew_chi_eff skew_chi_p 0
    = Raise ValueError
  ∧ (rho ≠ 0 →
     gaussian_chi_p_chi_eff normal_pdf kernel_2d dataset
       mu_chi_eff sigma_chi_eff mu_chi_p sigma_chi_p rho
     = Ok (masked_density kernel (grid_quadrature kernel) x <$> ys)
     ∧ gaussian_chi_p_chi_eff_skew skew_normal_pdf skew_kernel_2d dataset
         mu_chi_eff sigma_chi_eff mu_chi_p sigma_chi_p
         skew_chi_eff skew_chi_p rho
       = Ok (masked_density skew_kernel (grid_quadrature skew_kernel) x
             <$> ys)).
Proof.
  intros Hx Hy Hlen kernel skew_kernel.
  assert (∀ (k : Qc → Qc → Qc) (n : Qc),
            (imul_mask ((λ p, p / n) <$> (k x <$> ys)) (chi_eff_mask [x])
             ≫= λ prob, chi_p_mask ys ys ≫= λ mask, imul_mask prob mask)
            = Ok (masked_density k n x <$> ys)) as Hmasks.
  { intros k n. unfold imul_mask, chi_eff_mask, chi_p_mask.
    cbn [fmap list_fmap]. rewrite inplace_singleton.
    cbn [mbind result_bind].
    rewrite broadcast_same by (by rewrite !length_fmap).
    cbn [mbind result_bind].
    rewrite inplace_same
      by (by rewrite length_zip_with, !length_fmap, Nat.min_id).
    f_equal. unfold masked_density.
    rewrite <- !list_fmap_compose.
    rewrite !zip_with_fmap_l, !zip_with_fmap_r, !zip_with_diag.
    rewrite zip_with_fmap_r, zip_with_diag. done. }
  split; [|split].
  - unfold gaussian_chi_p_chi_eff, gaussian_chi_eff, gaussian_chi_p, truncnorm.
    rewrite decide_True by done.
    rewrite (getitem_Some _ _ _ Hx), (getitem_Some _ _ _ Hy).
    cbn [mbind result_bind fmap list_fmap].
    apply inplace_cannot_stretch. by rewrite length_fmap.
  - unfold gaussian_chi_p_chi_eff_skew, skew_gaussian_chi_eff,
      skew_gaussian_chi_p, truncskewnorm.
    rewrite decide_True by done.
    rewrite (getitem_Some _ _ _ Hx), (getitem_Some _ _ _ Hy).
    cbn [mbind result_bind fmap list_fmap].
    apply inplace_cannot_stretch. by rewrite length_fmap.
  - intros Hrho. split.
    + unfold gaussian_chi_p_chi_eff, unnormalized_2d_gaussian.
      rewrite decide_False by done.
      rewrite (getitem_Some _ _ _ Hx), (getitem_Some _ _ _ Hy).
      cbn [mbind result_bind].
      rewrite broadcast_singleton_l, normalization_quadrature.
      cbn [mbind result_bind]. apply (Hmasks kernel).
    + unfold gaussian_chi_p_chi_eff_skew, unnormalized_2d_skew_gaussian.
      rewrite decide_False by done.
      rewrite (getitem_Some _ _ _ Hx), (getitem_Some _ _ _ Hy).
      cbn [mbind result_bind].
      rewrite broadcast_singleton_l, normalization_skew_quadrature.
      cbn [mbind result_bind]. apply (Hmasks skew_kernel).
Qed.

(** One precessing spin against several effective aligned spins is accepted
    on both paths: the one-sample array is the right operand of the in-place
    product and is stretched. *)
Theorem one_chi_p_against_many (dataset : gmap string array)
    (xs : array) (y : Qc)
    (mu_chi_eff sigma_chi_eff mu_chi_p sigma_chi_p rho : Qc) :
  dataset !! "chi_eff" = Some xs →
  dataset !! "chi_p" = Some [y] →
  let kernel x y :=
    kernel_2d x y mu_chi_eff mu_chi_p sigma_chi_eff sigma_chi_p rho in
  gaussian_chi_p_chi_eff normal_pdf kernel_2d dataset
    mu_chi_eff sigma_chi_eff mu_chi_p sigma_chi_p 0
  = Ok ((λ x, truncnorm_at normal_pdf x mu_chi_eff sigma_chi_eff 1 (-1)
              * truncnorm_at normal_pdf y mu_chi_p sigma_chi_p 1 0) <$> xs)
  ∧ (rho ≠ 0 →
     gaussian_chi_p_chi_eff normal_pdf kernel_2d dataset
       mu_chi_eff sigma_chi_eff mu_chi_p sigma_chi_p rho
     = Ok ((λ x, masked_density kernel (grid_quadrature kernel) x y) <$> xs)).
Proof.
  intros Hx Hy kernel. split.
  - unfold gaussian_chi_p_chi_eff, gaussian_chi_eff, gaussian_chi_p, truncnorm.
    rewrite decide_True by done.
    rewrite (getitem_Some _ _ _ Hx), (getitem_Some _ _ _ Hy).
    cbn [mbind result_bind fmap list_fmap].
    rewrite inplace_singleton. f_equal. by rewrite <- list_fmap_compose.
  - intros Hrho. unfold gaussian_chi_p_chi_eff, unnormalized_2d_gaussian.
    rewrite decide_False by done.
    rewrite (getitem_Some _ _ _ Hx), (getitem_Some _ _ _ Hy).
    cbn [mbind result_bind].
    rewrite broadcast_singleton_r, normalization_quadrature.
    cbn [mbind result_bind]. fold kernel.
    unfold imul_mask, chi_eff_mask, chi_p_mask.
    rewrite inplace_same by (by rewrite !length_fmap).
    cbn [mbind result_bind fmap list_fmap].
    rewrite broadcast_singleton_r.
    cbn [mbind result_bind fmap list_fmap].
    rewrite inplace_singleton. f_equal. unfold masked_density.
    rewrite <- !list_fmap_compose, zip_with_fmap_l, zip_with_fmap_r.
    rewrite zip_with_diag, <- list_fmap_compose. done.
Qed.

End Stretching.

(** ** The tilt mixture outside the support of the tilts *)

Section Tilts.

Variable normal_pdf : Qc → Qc → Qc → Qc → Qc → Qc.

(** The isotropic term is not masked: a sample with a cosine tilt outside
    [[-1, 1]] keeps the density [(1 - xi_spin) / 4]. *)
Theorem isotropic_floor_outside_tilt_support (dataset : gmap string array)
    (z1 z2 : array) (xi_spin sigma_1 sigma_2 : Qc) :
  dataset !! "cos_tilt_1" = Some z1 →
  dataset !! "cos_tilt_2" = Some z2 →
  length z1 = length z2 →
  ∃ out : array,
    independent_spin_orientation_gaussian_isotropic normal_pdf dataset
      xi_spin sigma_1 sigma_2 = Ok out
    ∧ ∀ (i : nat) (a b : Qc),
        z1 !! i = Some a → z2 !! i = Some b →
        ¬ (-1 ≤ a ∧ a ≤ 1) ∨ ¬ (-1 ≤ b ∧ b ≤ 1) →
        out !! i = Some ((1 - xi_spin) / qc 4 1).
Proof.
  intros H1 H2 Hlen. eexists. split.
  - by apply independent_orientation_pointwise.
  - intros i a b Ha Hb Hout.
    rewrite (lookup_zip_with_Some_both _ _ _ _ _ _ Ha Hb). f_equal.
    unfold tilt_mixture. destruct Hout as [Hout|Hout].
    + rewrite (truncnorm_at_outside _ a) by done. ring.
    + rewrite (truncnorm_at_outside _ b) by done. ring.
Qed.

End Tilts.

(** ** The quadrature *)

Lemma trapezoid_rule_scale (c : Qc) (f : Qc → Qc) (grid : array) :
  trapezoid_rule (λ x, c * f x) grid = c * trapezoid_rule f grid.
Proof.
  induction grid as [|a [|b grid] IH]; [cbn; ring..|].
  change (trapezoid_rule (λ x, c * f x) (a :: b :: grid))
    with ((b - a) * (c * f b + c * f a) / qc 2 1
          + trapezoid_rule (λ x, c * f x) (b :: grid)).
  change (trapezoid_rule f (a :: b :: grid))
    with ((b - a) * (f b + f a) / qc 2 1 + trapezoid_rule f (b :: grid)).
  rewrite IH. field. apply two_nonzero.
Qed.

Lemma trapezoid_rule_ext_in (f g : Qc → Qc) (grid : array) :
  (∀ x, x ∈ grid → f x = g x) →
  trapezoid_rule f grid = trapezoid_rule g grid.
Proof.
  induction grid as [|a [|b grid] IH]; intros Hfg; [done..|].
  change (trapezoid_rule f (a :: b :: grid))
    with ((b - a) * (f b + f a) / qc 2 1 + trapezoid_rule f (b :: grid)).
  change (trapezoid_rule g (a :: b :: grid))
    with ((b - a) * (g b + g a) / qc 2 1 + trapezoid_rule g (b :: grid)).
  rewrite IH by (intros x Hx; apply Hfg; by right).
  rewrite (Hfg a), (Hfg b); [done | by right; left | by left].
Qed.

Lemma trapezoid_rule_const (c a b : Qc) (grid : array) :
  head grid = Some a → last grid = Some b →
  trapezoid_rule (λ _, c) grid = c * (b - a).
Proof.
  revert a. induction grid as [|a' [|b' grid] IH]; intros a Hhead Hlast.
  - done.
  - cbn in *. simplify_eq. ring.
  - change (trapezoid_rule (λ _, c) (a' :: b' :: grid))
      with ((b' - a') * (c + c) / qc 2 1
            + trapezoid_rule (λ _, c) (b' :: grid)).
    cbn in Hhead. simplify_eq.
    rewrite (IH b') by done.
    replace (qc 2 1) with (1 + 1) by qc_compute. field.
    replace (1 + 1) with (qc 2 1) by qc_compute. apply two_nonzero.
Qed.

Lemma chi_eff_points_ends :
  head chi_eff_points = Some (-1) ∧ last chi_eff_points = Some 1.
Proof.
  rewrite head_lookup, last_lookup. unfold chi_eff_points.
  rewrite length_fmap, length_seq, !list_lookup_fmap.
  rewrite !lookup_seq_lt by (cbn; lia). cbn [fmap option_fmap option_map].
  split; f_equal; qc_compute.
Qed.

Lemma chi_p_points_ends :
  head chi_p_points = Some 0 ∧ last chi_p_points = Some 1.
Proof.
  rewrite head_lookup, last_lookup. unfold chi_p_points.
  rewrite length_fmap, length_seq, !list_lookup_fmap.
  rewrite !lookup_seq_lt by (cbn; lia). cbn [fmap option_fmap option_map].
  split; f_equal; qc_compute.
Qed.

Lemma grid_quadrature_const (c : Qc) :
  grid_quadrature (λ _ _, c) = qc 2 1 * c.
Proof.
  unfold grid_quadrature.
  destruct chi_eff_points_ends as [He1 He2], chi_p_points_ends as [Hp1 Hp2].
  rewrite (trapezoid_rule_ext_in _ (λ _, c * (1 - -1))).
  - rewrite (trapezoid_rule_const _ 0 1) by done.
    replace (qc 2 1) with (1 + 1) by qc_compute. ring.
  - intros y _. by apply trapezoid_rule_const.
Qed.

Lemma grid_quadrature_scale (c : Qc) (kernel : Qc → Qc → Qc) :
  grid_quadrature (λ x y, c * kernel x y) = c * grid_quadrature kernel.
Proof.
  unfold grid_quadrature.
  rewrite <- trapezoid_rule_scale. apply trapezoid_rule_ext_in.
  intros y _. apply trapezoid_rule_scale.
Qed.

Lemma chi_eff_points_in_support :
  Forall (λ x, -1 ≤ x ∧ x ≤ 1) chi_eff_points.
Proof. apply (bool_decide_unpack _). vm_compute. exact I. Qed.

Lemma chi_p_points_in_support :
  Forall (λ y, 0 ≤ y ∧ y ≤ 1) chi_p_points.
Proof. apply (bool_decide_unpack _). vm_compute. exact I. Qed.

Lemma broadcast_compose {A B C D} (g : C → D) (f : A → B → C) a b :
  broadcast (λ x y, g (f x y)) a b
  = match broadcast f a b with
    | Ok v => Ok (g <$> v)
    | Raise e => Raise e
    end.
Proof.
  unfold broadcast. destruct (decide _).
  - by rewrite fmap_zip_with_out.
  - destruct a as [|x [|??]], b as [|y [|??]]; try done;
      cbn [fmap list_fmap]; by rewrite <- ?list_fmap_compose.
Qed.

Section Quadrature.

Variable normal_pdf : Qc → Qc → Qc → Qc → Qc → Qc.
Variable kernel_2d : Qc → Qc → Qc → Qc → Qc → Qc → Qc → Qc.

(** The quadrature is exact on constants: for a kernel that is the constant
    [c] the normalising constant is [2 c], the area of the support times [c],
    and for [c ≠ 0] and [rho ≠ 0] every sample inside the support has the
    uniform density 1/2. *)
Theorem constant_kernel_gives_uniform_density
    (dataset : gmap string array) (xs ys : array)
    (mu_chi_eff sigma_chi_eff mu_chi_p sigma_chi_p rho c : Qc) :
  (∀ x y, kernel_2d x y mu_chi_eff mu_chi_p sigma_chi_eff sigma_chi_p rho = c) →
  c ≠ 0 → rho ≠ 0 →
  dataset !! "chi_eff" = Some xs →
  dataset !! "chi_p" = Some ys →
  length xs = length ys →
  _normalization kernel_2d mu_chi_eff sigma_chi_eff mu_chi_p sigma_chi_p rho
  = Ok (qc 2 1 * c)
  ∧ ∃ out : array,
      gaussian_chi_p_chi_eff normal_pdf kernel_2d dataset
        mu_chi_eff sigma_chi_eff mu_chi_p sigma_chi_p rho = Ok out
      ∧ ∀ (i : nat) (x y : Qc),
          xs !! i = Some x → ys !! i = Some y →
          -1 ≤ x ∧ x ≤ 1 → 0 ≤ y ∧ y ≤ 1 →
          out !! i = Some (qc 1 2).
Proof.
  intros Hconst Hc Hrho Hx Hy Hlen.
  assert (grid_quadrature
            (λ x y, kernel_2d x y mu_chi_eff mu_chi_p sigma_chi_eff
                      sigma_chi_p rho) = qc 2 1 * c) as Hn.
  { rewrite <- grid_quadrature_const. unfold grid_quadrature.
    apply trapezoid_rule_ext_in. intros y _.
    apply trapezoid_rule_ext_in. intros x _. apply Hconst. }
  split.
  - by rewrite normalization_quadrature, Hn.
  - eexists. split; [by apply gaussian_general_path|].
    intros i x y Hi Hj Hin1 Hin2.
    rewrite (lookup_zip_with_Some_both _ _ _ _ _ _ Hi Hj). f_equal.
    rewrite masked_density_inside by done. rewrite Hn, Hconst.
    replace (qc 1 2) with (1 / qc 2 1) by qc_compute.
    field. split; [apply two_nonzero | done].
Qed.

(** The density for [rho ≠ 0] does not depend on the scale of the kernel:
    with the kernel multiplied by a constant [c ≠ 0] the model returns the
    same result on every dataset, provided the normalising constant is not
    zero. *)
Theorem density_independent_of_kernel_scale
    (dataset : gmap string array)
    (mu_chi_eff sigma_chi_eff mu_chi_p sigma_chi_p rho c : Qc) :
  c ≠ 0 → rho ≠ 0 →
  grid_quadrature
    (λ x y, kernel_2d x y mu_chi_eff mu_chi_p sigma_chi_eff sigma_chi_p rho)
  ≠ 0 →
  gaussian_chi_p_chi_eff normal_pdf
    (λ x y mu_x mu_y sigma_x sigma_y r,
       c * kernel_2d x y mu_x mu_y sigma_x sigma_y r)
    dataset mu_chi_eff sigma_chi_eff mu_chi_p sigma_chi_p rho
  = gaussian_chi_p_chi_eff normal_pdf kernel_2d dataset
      mu_chi_eff sigma_chi_eff mu_chi_p sigma_chi_p rho.
Proof.
  intros Hc Hrho Hn.
  unfold gaussian_chi_p_chi_eff, unnormalized_2d_gaussian.
  rewrite !decide_False by done.
  rewrite !normalization_quadrature.
  rewrite (grid_quadrature_scale c
             (λ x y, kernel_2d x y mu_chi_eff mu_chi_p sigma_chi_eff
                       sigma_chi_p rho)).
  set (n := grid_quadrature _) in *. clearbody n.
  destruct (getitem dataset "chi_eff") as [xs|e];
    cbn [mbind result_bind]; [|reflexivity].
  destruct (getitem dataset "chi_p") as [ys|e];
    cbn [mbind result_bind]; [|reflexivity].
  rewrite (broadcast_compose (Qcmult c)
             (λ a b, kernel_2d a b mu_chi_eff mu_chi_p sigma_chi_eff
                       sigma_chi_p rho)).
  destruct (broadcast _ xs ys) as [v|e];
    cbn [mbind result_bind]; [|reflexivity].
  replace ((λ p, p / (c * n)) <$> (Qcmult c <$> v))
    with ((λ p, p / n) <$> v); [done|].
  rewrite <- list_fmap_compose. apply list_fmap_ext.
  intros _ p _. cbn. field. done.
Qed.

(** The density for [rho ≠ 0] integrates to exactly 1 under the quadrature
    that normalised it: no point of the two grids is masked, and the
    trapezoidal rule is linear. *)
Theorem normalised_density_integrates_to_one
    (dataset : gmap string array) (xs ys : array)
    (mu_chi_eff sigma_chi_eff mu_chi_p sigma_chi_p rho : Qc) :
  rho ≠ 0 →
  dataset !! "chi_eff" = Some xs →
  dataset !! "chi_p" = Some ys →
  length xs = length ys →
  let kernel x y :=
    kernel_2d x y mu_chi_eff mu_chi_p sigma_chi_eff sigma_chi_p rho in
  grid_quadrature kernel ≠ 0 →
  let density := masked_density kernel (grid_quadrature kernel) in
  gaussian_chi_p_chi_eff normal_pdf kernel_2d dataset
    mu_chi_eff sigma_chi_eff mu_chi_p sigma_chi_p rho
  = Ok (zip_with density xs ys)
  ∧ grid_quadrature density = 1.
Proof.
  intros Hrho Hx Hy Hlen kernel Hn density.
  split; [by apply gaussian_general_path|].
  set (n := grid_quadrature kernel) in *.
  assert (grid_quadrature density
          = grid_quadrature (λ x y, (1 / n) * kernel x y)) as ->.
  { unfold grid_quadrature. apply trapezoid_rule_ext_in. intros y Hy'.
    apply trapezoid_rule_ext_in. intros x Hx'. unfold density.
    rewrite masked_density_inside.
    - field. done.
    - by apply (proj1 (Forall_forall _ _) chi_eff_points_in_support).
    - by apply (proj1 (Forall_forall _ _) chi_p_points_in_support). }
  rewrite grid_quadrature_scale. fold n. field. done.
Qed.

End Quadrature.

(** ** The array a call returns *)

Section Fresh.

Variable beta_pdf : Qc → Qc → Qc → Qc → Qc.
Variable normal_pdf : Qc → Qc → Qc → Qc → Qc → Qc.
Variable skew_normal_pdf : Qc → Qc → Qc → Qc → Qc → Qc → Qc.
Variable kernel_2d : Qc → Qc → Qc → Qc → Qc → Qc → Qc → Qc.
Variable skew_kernel_2d : Qc → Qc → Qc → Qc → Qc → Qc → Qc → Qc → Qc → Qc.

(** The reference a call returns points to an array that did not exist
    before the call: it is none of the references of the dataset, so writing
    to the result cannot change the dataset. *)
Theorem result_is_a_new_array (m : model)
    (dataset : gmap string Store.loc) (h h' : Store.heap) (t : Store.loc) :
  allocated h dataset →
  call beta_pdf normal_pdf skew_normal_pdf kernel_2d skew_kernel_2d
    m dataset h = (Ok t, h') →
  h !! t = None
  ∧ is_Some (h' !! t)
  ∧ ∀ key l, dataset !! key = Some l → l ≠ t.
Proof.
  intros Hwf Hcall.
  pose proof (call_implements beta_pdf normal_pdf skew_normal_pdf kernel_2d
                skew_kernel_2d h dataset Hwf m h) as Hpost.
  rewrite Hcall in Hpost. destruct Hpost as [_ (Hnew & v & Hv & _)]; [done|].
  cbn [fst snd] in *. split; [done|]. split; [by exists v|].
  intros key l Hl ->. destruct (Hwf _ _ Hl) as [a Ha]. congruence.
Qed.

End Fresh.

(** ** Densities are not negative *)

Lemma Qc_nonneg_mult (a b : Qc) : 0 ≤ a → 0 ≤ b → 0 ≤ a * b.
Proof.
  intros Ha Hb. rewrite <- (Qcmult_0_l b). by apply Qcmult_le_compat_r.
Qed.

Lemma Qc_nonneg_plus (a b : Qc) : 0 ≤ a → 0 ≤ b → 0 ≤ a + b.
Proof.
  intros Ha Hb. rewrite <- (Qcplus_0_l 0). by apply Qcplus_le_compat.
Qed.

Lemma Qc_nonneg_inv (a : Qc) : 0 ≤ a → 0 ≤ / a.
Proof.
  unfold Qcle. intros Ha. change (0 <= Qred (/ a))%Q.
  rewrite Qred_correct. apply Qinv_le_0_compat. exact Ha.
Qed.

Lemma Qc_nonneg_div (a b : Qc) : 0 ≤ a → 0 ≤ b → 0 ≤ a / b.
Proof. intros Ha Hb. apply Qc_nonneg_mult; [done | by apply Qc_nonneg_inv]. Qed.

Lemma Qc_nonneg_bool (b : bool) : 0 ≤ bool_to_Qc b.
Proof. by destruct b. Qed.

Lemma Qc_of_nat_S (i : nat) : Qc_of_nat (S i) = Qc_of_nat i + 1.
Proof.
  unfold Qc_of_nat, Qcplus. apply Q2Qc_eq_iff. cbn [this Q2Qc].
  rewrite !Qred_correct, Nat2Z.inj_succ. unfold Z.succ.
  by rewrite inject_Z_plus.
Qed.

(** Decides an order between two closed rationals. *)
Ltac qc_order := apply (bool_decide_unpack _); vm_compute; exact I.

Lemma trapezoid_rule_nonneg (f : Qc → Qc) (g : nat → Qc) (s n : nat) :
  (∀ i, g i ≤ g (S i)) → (∀ x, 0 ≤ f x) →
  0 ≤ trapezoid_rule f (g <$> seq s n).
Proof.
  intros Hg Hf. revert s. induction n as [|[|n] IH]; intros s; [done..|].
  change (trapezoid_rule f (g <$> seq s (S (S n))))
    with ((g (S s) - g s) * (f (g (S s)) + f (g s)) / qc 2 1
          + trapezoid_rule f (g <$> seq (S s) (S n))).
  apply Qc_nonneg_plus; [|apply IH].
  apply Qc_nonneg_div; [|qc_order].
  apply Qc_nonneg_mult; [|by apply Qc_nonneg_plus].
  unfold Qcminus. apply (proj1 (Qcle_minus_iff _ _)), Hg.
Qed.

Lemma grid_quadrature_nonneg (kernel : Qc → Qc → Qc) :
  (∀ x y, 0 ≤ kernel x y) → 0 ≤ grid_quadrature kernel.
Proof.
  intros Hk. unfold grid_quadrature, chi_eff_points, chi_p_points.
  apply trapezoid_rule_nonneg.
  - intros i. rewrite Qc_of_nat_S. apply (proj2 (Qcle_minus_iff _ _)).
    replace ((Qc_of_nat i + 1) * qc 1 249 + - (Qc_of_nat i * qc 1 249))
      with (qc 1 249) by ring.
    qc_order.
  - intros y. apply trapezoid_rule_nonneg; [|done].
    intros i. rewrite Qc_of_nat_S. apply (proj2 (Qcle_minus_iff _ _)).
    replace (-1 + (Qc_of_nat i + 1) * qc 2 499
             + - (-1 + Qc_of_nat i * qc 2 499))
      with (qc 2 499) by ring.
    qc_order.
Qed.

Lemma Forall_zip_with_both {A B C} (P : A → Prop) (Q : B → Prop)
    (R : C → Prop) (f : A → B → C) a b :
  (∀ x y, P x → Q y → R (f x y)) →
  Forall P a → Forall Q b → Forall R (zip_with f a b).
Proof.
  intros Hf Ha. revert b. induction Ha as [|x a Hx Ha IH]; intros b Hb.
  - constructor.
  - destruct Hb as [|y b Hy Hb]; constructor; auto.
Qed.

Lemma broadcast_Ok_inv {A B C} (f : A → B → C) a b c :
  broadcast f a b = Ok c →
  c = zip_with f a b
  ∨ (∃ x, a = [x] ∧ c = f x <$> b)
  ∨ (∃ y, b = [y] ∧ c = (λ x, f x y) <$> a).
Proof.
  unfold broadcast. destruct (decide _).
  - intros [= <-]. by left.
  - destruct a as [|x [|??]], b as [|y [|??]]; try done; intros [= <-];
      first [ by right; left; eexists | by right; right; eexists ].
Qed.

Lemma inplace_Ok_inv {A B} (f : A → B → A) prob other c :
  inplace f prob other = Ok c →
  c = zip_with f prob other
  ∨ (∃ y, other = [y] ∧ c = (λ x, f x y) <$> prob).
Proof.
  unfold inplace. destruct (decide _).
  - intros [= <-]. by left.
  - destruct other as [|y [|??]]; try done; intros [= <-].
    right. by eexists.
Qed.

Lemma Forall_broadcast {A B C} (P : A → Prop) (Q : B → Prop) (R : C → Prop)
    (f : A → B → C) a b c :
  (∀ x y, P x → Q y → R (f x y)) →
  Forall P a → Forall Q b → broadcast f a b = Ok c → Forall R c.
Proof.
  intros Hf Ha Hb [->|[(x & -> & ->)|(y & -> & ->)]]%broadcast_Ok_inv.
  - by eapply Forall_zip_with_both.
  - apply (proj1 (Forall_singleton _ _)) in Ha.
    apply Forall_fmap. eapply Forall_impl; [exact Hb|]. cbn. auto.
  - apply (proj1 (Forall_singleton _ _)) in Hb.
    apply Forall_fmap. eapply Forall_impl; [exact Ha|]. cbn. auto.
Qed.

Lemma Forall_inplace {A B} (P : A → Prop) (Q : B → Prop)
    (f : A → B → A) prob other c :
  (∀ x y, P x → Q y → P (f x y)) →
  Forall P prob → Forall Q other → inplace f prob other = Ok c → Forall P c.
Proof.
  intros Hf Ha Hb [->|(y & -> & ->)]%inplace_Ok_inv.
  - by eapply Forall_zip_with_both.
  - apply (proj1 (Forall_singleton _ _)) in Hb.
    apply Forall_fmap. eapply Forall_impl; [exact Ha|]. cbn. auto.
Qed.

Section Nonnegative.

Variable beta_pdf : Qc → Qc → Qc → Qc → Qc.
Variable normal_pdf : Qc → Qc → Qc → Qc → Qc → Qc.
Variable skew_normal_pdf : Qc → Qc → Qc → Qc → Qc → Qc → Qc.
Variable kernel_2d : Qc → Qc → Qc → Qc → Qc → Qc → Qc → Qc.
Variable skew_kernel_2d : Qc → Qc → Qc → Qc → Qc → Qc → Qc → Qc → Qc → Qc.

Hypothesis beta_nonneg : ∀ x alpha beta scale, 0 ≤ beta_pdf x alpha beta scale.
Hypothesis normal_nonneg :
  ∀ x mu sigma high low, 0 ≤ normal_pdf x mu sigma high low.
Hypothesis skew_normal_nonneg :
  ∀ x mu sigma alpha high low, 0 ≤ skew_normal_pdf x mu sigma alpha high low.
Hypothesis kernel_nonneg :
  ∀ x y mu_x mu_y sigma_x sigma_y rho,
    0 ≤ kernel_2d x y mu_x mu_y sigma_x sigma_y rho.
Hypothesis skew_kernel_nonneg :
  ∀ x y mu_x mu_y sigma_x sigma_y skew_x skew_y rho,
    0 ≤ skew_kernel_2d x y mu_x mu_y sigma_x sigma_y skew_x skew_y rho.

Local Abbreviation nonneg := (Forall (λ v : Qc, 0 ≤ v)).

Lemma beta_dist_nonneg xx alpha beta scale :
  nonneg (beta_dist beta_pdf xx alpha beta scale).
Proof. apply Forall_fmap, Forall_true. intros x. apply beta_nonneg. Qed.

Lemma truncnorm_nonneg xx mu sigma high low :
  nonneg (truncnorm normal_pdf xx mu sigma high low).
Proof.
  apply Forall_fmap, Forall_true. intros x. cbn. unfold truncnorm_at.
  destruct (decide _); [apply normal_nonneg | done].
Qed.

Lemma truncskewnorm_nonneg xx mu sigma alpha high low :
  nonneg (truncskewnorm skew_normal_pdf xx mu sigma alpha high low).
Proof.
  apply Forall_fmap, Forall_true. intros x. cbn. unfold truncskewnorm_at.
  destruct (decide _); [apply skew_normal_nonneg | done].
Qed.

Lemma magnitude_nonneg (dataset : gmap string array) a1 a2 b1 b2 m1 m2 out :
  independent_spin_magnitude_beta beta_pdf dataset a1 a2 b1 b2 m1 m2 = Ok out →
  nonneg out.
Proof.
  unfold independent_spin_magnitude_beta.
  destruct (getitem dataset "a_1") as [x1|]; [|done].
  destruct (getitem dataset "a_2") as [x2|]; [|done].
  cbn [mbind result_bind].
  apply Forall_broadcast with (P := λ v, 0 ≤ v) (Q := λ v, 0 ≤ v);
    [apply Qc_nonneg_mult | apply beta_dist_nonneg..].
Qed.

Lemma orientation_nonneg (dataset : gmap string array)
    xi_spin sigma_1 sigma_2 out :
  0 ≤ xi_spin ∧ xi_spin ≤ 1 →
  independent_spin_orientation_gaussian_isotropic normal_pdf dataset
    xi_spin sigma_1 sigma_2 = Ok out →
  nonneg out.
Proof.
  intros [Hxi0 Hxi1]. unfold independent_spin_orientation_gaussian_isotropic.
  cbv zeta.
  destruct (getitem dataset "cos_tilt_1") as [z1|]; [|done].
  destruct (getitem dataset "cos_tilt_2") as [z2|]; [|done].
  cbn [mbind result_bind].
  destruct (broadcast _ _ _) as [t|] eqn:E; [|done].
  cbn [mbind result_bind]. intros [= <-].
  apply Forall_fmap.
  eapply Forall_impl.
  - eapply (Forall_broadcast (λ v, 0 ≤ v) (λ v, 0 ≤ v) (λ v, 0 ≤ v));
      [apply Qc_nonneg_mult | | apply truncnorm_nonneg | exact E].
    apply Forall_fmap. eapply Forall_impl; [apply truncnorm_nonneg|].
    intros v Hv. cbn. by apply Qc_nonneg_mult.
  - intros v Hv. cbn. apply Qc_nonneg_plus; [|done].
    apply Qc_nonneg_div; [|qc_order].
    unfold Qcminus. by apply (proj1 (Qcle_minus_iff _ _)).
Qed.

Lemma masks_nonneg (prob : array) (n : Qc) (xs ys : array) out :
  nonneg prob → 0 ≤ n →
  (imul_mask ((λ p, p / n) <$> prob) (chi_eff_mask xs)
   ≫= λ prob, chi_p_mask ys ys ≫= λ mask, imul_mask prob mask) = Ok out →
  nonneg out.
Proof.
  intros Hprob Hn. unfold imul_mask.
  destruct (inplace _ _ (chi_eff_mask xs)) as [c1|] eqn:E1; [|done].
  cbn [mbind result_bind].
  destruct (chi_p_mask ys ys) as [mask|]; [|done].
  cbn [mbind result_bind]. intros E2.
  assert (∀ (x : Qc) (b : bool), 0 ≤ x → True → 0 ≤ x * bool_to_Qc b) as Hm.
  { intros x b Hx _. apply Qc_nonneg_mult; [done | apply Qc_nonneg_bool]. }
  eapply (Forall_inplace (λ v, 0 ≤ v) (λ _, True));
    [exact Hm | | by apply Forall_true | exact E2].
  eapply (Forall_inplace (λ v, 0 ≤ v) (λ _, True));
    [exact Hm | | by apply Forall_true | exact E1].
  apply Forall_fmap. eapply Forall_impl; [exact Hprob|].
  intros v Hv. cbn. by apply Qc_nonneg_div.
Qed.

Lemma marginals_product_nonneg (p q : result array) out :
  (∀ v, p = Ok v → nonneg v) → (∀ v, q = Ok v → nonneg v) →
  (p ≫= λ prob, q ≫= λ other, inplace Qcmult prob other) = Ok out →
  nonneg out.
Proof.
  intros Hp Hq. destruct p as [vp|]; [|done]. destruct q as [vq|]; [|done].
  cbn [mbind result_bind].
  apply Forall_inplace with (Q := λ v, 0 ≤ v);
    [apply Qc_nonneg_mult | by apply Hp | by apply Hq].
Qed.

Lemma lookup_then_nonneg (dataset : gmap string array) key
    (f : array → array) out :
  (∀ xx, nonneg (f xx)) →
  (getitem dataset key ≫= λ xx, Ok (f xx)) = Ok out → nonneg out.
Proof.
  intros Hf. destruct (getitem dataset key) as [xx|]; [|done].
  cbn [mbind result_bind]. intros [= <-]. apply Hf.
Qed.

(** With densities and kernels of [utils] that are never negative and a
    mixing fraction in [[0, 1]], no entry of the array a call returns is
    negative. *)
Theorem densities_are_not_negative (m : model)
    (dataset : gmap string array) (out : array) :
  mixing_fraction_valid m →
  eval beta_pdf normal_pdf skew_normal_pdf kernel_2d skew_kernel_2d m dataset
  = Ok out →
  Forall (λ v, 0 ≤ v) out.
Proof.
  intros Hxi. destruct m; cbn [eval mixing_fraction_valid] in *.
  - unfold iid_spin, iid_spin_orientation_gaussian_isotropic,
      iid_spin_magnitude_beta.
    destruct (independent_spin_orientation_gaussian_isotropic _ _ _ _ _)
      as [o|] eqn:Eo; [|done].
    destruct (independent_spin_magnitude_beta _ _ _ _ _ _ _ _)
      as [g|] eqn:Eg; [|done].
    cbn [mbind result_bind].
    apply Forall_broadcast with (P := λ v, 0 ≤ v) (Q := λ v, 0 ≤ v);
      [apply Qc_nonneg_mult
      | by eapply orientation_nonneg | by eapply magnitude_nonneg].
  - apply magnitude_nonneg.
  - apply magnitude_nonneg.
  - by apply orientation_nonneg.
  - by apply orientation_nonneg.
  - apply lookup_then_nonneg. intros xx. apply truncnorm_nonneg.
  - apply lookup_then_nonneg. intros xx. apply truncnorm_nonneg.
  - unfold gaussian_chi_p_chi_eff. destruct (decide (rho = 0)).
    + apply marginals_product_nonneg; intros v;
        apply lookup_then_nonneg; intros xx; apply truncnorm_nonneg.
    + rewrite normalization_quadrature.
      destruct (getitem dataset "chi_eff") as [xs|]; [|done].
      destruct (getitem dataset "chi_p") as [ys|]; [|done].
      cbn [mbind result_bind].
      destruct (unnormalized_2d_gaussian _ _ _ _ _ _ _ _) as [prob|] eqn:E;
        [|done].
      cbn [mbind result_bind]. apply masks_nonneg.
      * eapply (Forall_broadcast (λ _, True) (λ _, True));
          [| by apply Forall_true | by apply Forall_true | exact E].
        intros x y _ _. apply kernel_nonneg.
      * apply grid_quadrature_nonneg. intros x y. apply kernel_nonneg.
  - apply lookup_then_nonneg. intros xx. apply truncskewnorm_nonneg.
  - apply lookup_then_nonneg. intros xx. apply truncskewnorm_nonneg.
  - unfold gaussian_chi_p_chi_eff_skew. destruct (decide (rho = 0)).
    + apply marginals_product_nonneg; intros v;
        apply lookup_then_nonneg; intros xx; apply truncskewnorm_nonneg.
    + rewrite normalization_skew_quadrature.
      destruct (getitem dataset "chi_eff") as [xs|]; [|done].
      destruct (getitem dataset "chi_p") as [ys|]; [|done].
      cbn [mbind result_bind].
      destruct (unnormalized_2d_skew_gaussian _ _ _ _ _ _ _ _ _ _)
        as [prob|] eqn:E; [|done].
      cbn [mbind result_bind]. apply masks_nonneg.
      * eapply (Forall_broadcast (λ _, True) (λ _, True));
          [| by apply Forall_true | by apply Forall_true | exact E].
        intros x y _ _. apply skew_kernel_nonneg.
      * apply grid_quadrature_nonneg. intros x y. apply skew_kernel_nonneg.
Qed.

End Nonnegative.

(** ** The further properties at the example inputs *)

Lemma iid_spin_pointwise_witness :
  (two_samples !! "cos_tilt_1" = Some [1; qc (-1) 2]
   ∧ two_samples !! "cos_tilt_2" = Some [qc 1 2; 0]
   ∧ two_samples !! "a_1" = Some [qc 1 2; qc 1 4]
   ∧ two_samples !! "a_2" = Some [qc 3 10; qc 1 5])
  ∧ iid_spin one_beta one_normal two_samples (qc 1 2) 1 1 1 1
    = Ok (zip_with Qcmult
            (zip_with (tilt_mixture one_normal (qc 1 2) 1 1)
               [1; qc (-1) 2] [qc 1 2; 0])
            (zip_with (λ x y, one_beta x 1 1 1 * one_beta y 1 1 1)
               [qc 1 2; qc 1 4] [qc 3 10; qc 1 5])).
Proof.
  split; [done|].
  apply (iid_spin_pointwise one_beta one_normal two_samples); reflexivity.
Defined.

Lemma eval_length_witness :
  ((∀ key, key ∈ keys (Gaussian_chi_eff 0 1) →
      ∃ a : array, two_samples !! key = Some a ∧ length a = 2%nat)
   ∧ eval one_beta one_normal one_skew_normal one_kernel one_skew_kernel
       (Gaussian_chi_eff 0 1) two_samples
     = Ok (truncnorm one_normal [-1; qc 3 2] 0 1 1 (-1)))
  ∧ length (truncnorm one_normal [-1; qc 3 2] 0 1 1 (-1)) = 2%nat.
Proof.
  assert (∀ key, key ∈ keys (Gaussian_chi_eff 0 1) →
            ∃ a : array, two_samples !! key = Some a ∧ length a = 2%nat) as Hk.
  { intros key Hin. cbn [keys] in Hin.
    repeat (apply elem_of_cons in Hin as [->|Hin]);
      [by eexists | by apply elem_of_nil in Hin]. }
  assert (eval one_beta one_normal one_skew_normal one_kernel one_skew_kernel
            (Gaussian_chi_eff 0 1) two_samples
          = Ok (truncnorm one_normal [-1; qc 3 2] 0 1 1 (-1))) as Heval
    by reflexivity.
  split; [exact (conj Hk Heval)|].
  exact (eval_length one_beta one_normal one_skew_normal one_kernel
           one_skew_kernel _ two_samples 2 _ Hk Heval).
Defined.

Lemma missing_key_raises_witness :
  ("a_2" ∈ keys (Iid_spin 0 1 1 1 1) ∧ aligned_dataset !! "a_2" = None)
  ∧ ∃ e, eval one_beta one_normal one_skew_normal one_kernel one_skew_kernel
           (Iid_spin 0 1 1 1 1) aligned_dataset = Raise e.
Proof.
  assert ("a_2" ∈ keys (Iid_spin 0 1 1 1 1)) as Hin
    by (cbn [keys]; repeat constructor).
  assert (aligned_dataset !! "a_2" = None) as Hnone by reflexivity.
  split; [done|].
  exact (missing_key_raises one_beta one_normal one_skew_normal one_kernel
           one_skew_kernel _ aligned_dataset "a_2" Hin Hnone).
Defined.

Lemma KeyError_names_a_missing_key_witness :
  eval one_beta one_normal one_skew_normal one_kernel one_skew_kernel
    (Iid_spin_magnitude_beta 1 1 1) aligned_dataset = Raise (KeyError "a_1")
  ∧ "a_1" ∈ keys (Iid_spin_magnitude_beta 1 1 1)
  ∧ aligned_dataset !! "a_1" = None.
Proof.
  assert (eval one_beta one_normal one_skew_normal one_kernel one_skew_kernel
            (Iid_spin_magnitude_beta 1 1 1) aligned_dataset
          = Raise (KeyError "a_1")) as H by reflexivity.
  split; [exact H|].
  exact (KeyError_names_a_missing_key one_beta one_normal one_skew_normal
           one_kernel one_skew_kernel _ aligned_dataset "a_1" H).
Defined.

Lemma first_key_missing_witness :
  (head (keys (Gaussian_chi_p_chi_eff_skew 0 1 0 1 0 0 (qc 1 2)))
   = Some "chi_eff"
   ∧ aligned_dataset !! "chi_eff" = None)
  ∧ eval one_beta one_normal one_skew_normal one_kernel one_skew_kernel
      (Gaussian_chi_p_chi_eff_skew 0 1 0 1 0 0 (qc 1 2)) aligned_dataset
    = Raise (KeyError "chi_eff").
Proof.
  split; [done|].
  apply (first_key_missing one_beta one_normal one_skew_normal one_kernel
           one_skew_kernel _ aligned_dataset "chi_eff"); reflexivity.
Defined.

Lemma incompatible_shapes_raise_witness :
  (keys (Independent_spin_magnitude_beta 1 1 1 1 1 1) = ["a_1"; "a_2"]
   ∧ three_against_two !! "a_1" = Some [0; qc 1 2; 1]
   ∧ three_against_two !! "a_2" = Some [qc 1 4; qc 3 4])
  ∧ eval one_beta one_normal one_skew_normal one_kernel one_skew_kernel
      (Independent_spin_magnitude_beta 1 1 1 1 1 1) three_against_two
    = Raise ValueError.
Proof.
  split; [done|].
  apply (incompatible_shapes_raise one_beta one_normal one_skew_normal
           one_kernel one_skew_kernel _ three_against_two "a_1" "a_2"
           [0; qc 1 2; 1] [qc 1 4; qc 3 4]);
    first [reflexivity | cbn; lia].
Defined.

Lemma one_second_component_is_stretched_witness :
  (two_against_one !! "a_1" = Some [qc 1 2; qc 1 4]
   ∧ two_against_one !! "a_2" = Some [qc 3 10]
   ∧ two_against_one !! "cos_tilt_1" = Some [1; qc (-1) 2]
   ∧ two_against_one !! "cos_tilt_2" = Some [qc 1 2])
  ∧ independent_spin_magnitude_beta one_beta two_against_one 1 1 1 1 1 1
    = Ok ((λ x, one_beta x 1 1 1 * one_beta (qc 3 10) 1 1 1)
          <$> [qc 1 2; qc 1 4]).
Proof.
  split; [done|].
  apply (one_second_component_is_stretched one_beta one_normal two_against_one
           [qc 1 2; qc 1 4] [1; qc (-1) 2] (qc 3 10) (qc 1 2)
           1 1 1 1 1 1 (qc 1 2) 1 1); reflexivity.
Defined.

Lemma one_chi_eff_against_many_witness :
  (one_against_three !! "chi_eff" = Some [qc 1 2]
   ∧ one_against_three !! "chi_p" = Some [0; qc 1 2; qc 3 2]
   ∧ length [0; qc 1 2; qc 3 2] ≠ 1%nat)
  ∧ gaussian_chi_p_chi_eff one_normal one_kernel one_against_three 0 1 0 1 0
    = Raise ValueError.
Proof.
  assert (one_against_three !! "chi_eff" = Some [qc 1 2]) as H1 by reflexivity.
  assert (one_against_three !! "chi_p" = Some [0; qc 1 2; qc 3 2]) as H2
    by reflexivity.
  assert (length [0; qc 1 2; qc 3 2] ≠ 1%nat) as H3 by (cbn; lia).
  split; [done|].
  pose proof (one_chi_eff_against_many one_normal one_skew_normal one_kernel
                one_skew_kernel one_against_three (qc 1 2) [0; qc 1 2; qc 3 2]
                0 1 0 1 0 0 (qc 1 2) H1 H2 H3) as H.
  cbv zeta in H. destruct H as [H _]. exact H.
Defined.

Lemma one_chi_p_against_many_witness :
  (two_against_one !! "chi_eff" = Some [0; qc 1 2]
   ∧ two_against_one !! "chi_p" = Some [qc 1 2])
  ∧ gaussian_chi_p_chi_eff one_normal one_kernel two_against_one 0 1 0 1 0
    = Ok ((λ x, truncnorm_at one_normal x 0 1 1 (-1)
                * truncnorm_at one_normal (qc 1 2) 0 1 1 0) <$> [0; qc 1 2]).
Proof.
  assert (two_against_one !! "chi_eff" = Some [0; qc 1 2]) as H1 by reflexivity.
  assert (two_against_one !! "chi_p" = Some [qc 1 2]) as H2 by reflexivity.
  split; [done|].
  pose proof (one_chi_p_against_many one_normal one_kernel two_against_one
                [0; qc 1 2] (qc 1 2) 0 1 0 1 (qc 1 2) H1 H2) as H.
  cbv zeta in H. destruct H as [H _]. exact H.
Defined.

Lemma isotropic_floor_outside_tilt_support_witness :
  (two_samples !! "cos_tilt_1" = Some [1; qc (-1) 2]
   ∧ two_samples !! "cos_tilt_2" = Some [qc 1 2; 0]
   ∧ length [1; qc (-1) 2] = length [qc 1 2; 0])
  ∧ ∃ out : array,
      independent_spin_orientation_gaussian_isotropic one_normal two_samples
        (qc 1 2) 1 1 = Ok out
      ∧ ∀ (i : nat) (a b : Qc),
          [1; qc (-1) 2] !! i = Some a → [qc 1 2; 0] !! i = Some b →
          ¬ (-1 ≤ a ∧ a ≤ 1) ∨ ¬ (-1 ≤ b ∧ b ≤ 1) →
          out !! i = Some ((1 - qc 1 2) / qc 4 1).
Proof.
  split; [done|].
  apply (isotropic_floor_outside_tilt_support one_normal two_samples
           [1; qc (-1) 2] [qc 1 2; 0] (qc 1 2) 1 1); reflexivity.
Defined.

Lemma one_kernel_quadrature :
  grid_quadrature (λ x y, one_kernel x y 0 0 1 1 (qc 1 2)) ≠ 0.
Proof.
  unfold one_kernel. rewrite grid_quadrature_const. intros H. discriminate H.
Qed.

Lemma constant_kernel_gives_uniform_density_witness :
  ((∀ x y, one_kernel x y 0 0 1 1 (qc 1 2) = 1)
   ∧ (1 : Qc) ≠ 0 ∧ qc 1 2 ≠ 0
   ∧ two_samples !! "chi_eff" = Some [-1; qc 3 2]
   ∧ two_samples !! "chi_p" = Some [1; qc 1 2]
   ∧ length [-1; qc 3 2] = length [1; qc 1 2])
  ∧ _normalization one_kernel 0 1 0 1 (qc 1 2) = Ok (qc 2 1 * 1).
Proof.
  assert (∀ x y, one_kernel x y 0 0 1 1 (qc 1 2) = 1) as Hconst by reflexivity.
  assert ((1 : Qc) ≠ 0) as Hc by done.
  assert (qc 1 2 ≠ 0) as Hrho by done.
  assert (two_samples !! "chi_eff" = Some [-1; qc 3 2]) as H1 by reflexivity.
  assert (two_samples !! "chi_p" = Some [1; qc 1 2]) as H2 by reflexivity.
  assert (length [-1; qc 3 2] = length [1; qc 1 2]) as Hlen by reflexivity.
  split; [by repeat split|].
  pose proof (constant_kernel_gives_uniform_density one_normal one_kernel
                two_samples [-1; qc 3 2] [1; qc 1 2] 0 1 0 1 (qc 1 2) 1
                Hconst Hc Hrho H1 H2 Hlen) as H.
  destruct H as [H _]. exact H.
Defined.

Lemma density_independent_of_kernel_scale_witness :
  (qc 3 1 ≠ 0 ∧ qc 1 2 ≠ 0
   ∧ grid_quadrature (λ x y, one_kernel x y 0 0 1 1 (qc 1 2)) ≠ 0)
  ∧ gaussian_chi_p_chi_eff one_normal
      (λ x y mu_x mu_y sigma_x sigma_y r,
         qc 3 1 * one_kernel x y mu_x mu_y sigma_x sigma_y r)
      two_samples 0 1 0 1 (qc 1 2)
    = gaussian_chi_p_chi_eff one_normal one_kernel two_samples
        0 1 0 1 (qc 1 2).
Proof.
  assert (qc 3 1 ≠ 0) as Hc by done.
  assert (qc 1 2 ≠ 0) as Hrho by done.
  pose proof one_kernel_quadrature as Hn.
  split; [exact (conj Hc (conj Hrho Hn))|].
  exact (density_independent_of_kernel_scale one_normal one_kernel two_samples
           0 1 0 1 (qc 1 2) (qc 3 1) Hc Hrho Hn).
Defined.

Lemma normalised_density_integrates_to_one_witness :
  (qc 1 2 ≠ 0
   ∧ two_samples !! "chi_eff" = Some [-1; qc 3 2]
   ∧ two_samples !! "chi_p" = Some [1; qc 1 2]
   ∧ length [-1; qc 3 2] = length [1; qc 1 2]
   ∧ grid_quadrature (λ x y, one_kernel x y 0 0 1 1 (qc 1 2)) ≠ 0)
  ∧ grid_quadrature
      (masked_density (λ x y, one_kernel x y 0 0 1 1 (qc 1 2))
         (grid_quadrature (λ x y, one_kernel x y 0 0 1 1 (qc 1 2))))
    = 1.
Proof.
  assert (qc 1 2 ≠ 0) as Hrho by done.
  assert (two_samples !! "chi_eff" = Some [-1; qc 3 2]) as H1 by reflexivity.
  assert (two_samples !! "chi_p" = Some [1; qc 1 2]) as H2 by reflexivity.
  assert (length [-1; qc 3 2] = length [1; qc 1 2]) as Hlen by reflexivity.
  pose proof one_kernel_quadrature as Hn.
  split; [exact (conj Hrho (conj H1 (conj H2 (conj Hlen Hn))))|].
  pose proof (normalised_density_integrates_to_one one_normal one_kernel
                two_samples [-1; qc 3 2] [1; qc 1 2] 0 1 0 1 (qc 1 2)
                Hrho H1 H2 Hlen Hn) as H.
  cbv zeta in H. destruct H as [_ H]. exact H.
Defined.

Lemma result_is_a_new_array_witness :
  allocated example_heap example_dataset
  ∧ example_heap !! 3%positive = None.
Proof.
  assert (allocated example_heap example_dataset) as Hwf.
  { apply (bool_decide_unpack _). vm_compute. exact I. }
  split; [exact Hwf|].
  assert (call one_beta one_normal one_skew_normal one_kernel one_skew_kernel
            (Gaussian_chi_eff 0 1) example_dataset example_heap
          = (Ok 3%positive,
             (call one_beta one_normal one_skew_normal one_kernel
                one_skew_kernel (Gaussian_chi_eff 0 1) example_dataset
                example_heap).2)) as Hcall.
  { rewrite (surjective_pairing (call _ _ _ _ _ _ _ _)) at 1.
    f_equal; vm_compute; reflexivity. }
  exact (proj1 (result_is_a_new_array one_beta one_normal one_skew_normal
                  one_kernel one_skew_kernel _ example_dataset example_heap
                  _ 3%positive Hwf Hcall)).
Defined.

Lemma densities_are_not_negative_witness :
  (mixing_fraction_valid (Iid_spin_orientation_gaussian_isotropic (qc 1 2) 1)
   ∧ eval one_beta one_normal one_skew_normal one_kernel one_skew_kernel
       (Iid_spin_orientation_gaussian_isotropic (qc 1 2) 1) two_samples
     = Ok (zip_with (tilt_mixture one_normal (qc 1 2) 1 1)
             [1; qc (-1) 2] [qc 1 2; 0]))
  ∧ Forall (λ v, 0 ≤ v)
      (zip_with (tilt_mixture one_normal (qc 1 2) 1 1)
         [1; qc (-1) 2] [qc 1 2; 0]).
Proof.
  assert (mixing_fraction_valid
            (Iid_spin_orientation_gaussian_isotropic (qc 1 2) 1)) as Hxi.
  { cbn [mixing_fraction_valid]. split; qc_order. }
  assert (eval one_beta one_normal one_skew_normal one_kernel one_skew_kernel
            (Iid_spin_orientation_gaussian_isotropic (qc 1 2) 1) two_samples
          = Ok (zip_with (tilt_mixture one_normal (qc 1 2) 1 1)
                  [1; qc (-1) 2] [qc 1 2; 0])) as Heval.
  { cbn [eval]. unfold iid_spin_orientation_gaussian_isotropic.
    by apply independent_orientation_pointwise. }
  split; [done|].
  refine (densities_are_not_negative one_beta one_normal one_skew_normal
            one_kernel one_skew_kernel _ _ _ _ _
            (Iid_spin_orientation_gaussian_isotropic (qc 1 2) 1)
            two_samples _ Hxi Heval);
    intros; qc_order.
Defined.

(** ** A normalising constant that vanishes *)





